(** * parsing-graph: the PDF table-of-contents pipeline

    A shallow embedding of the parsing pipeline of [backend/langgraph]
    ([nodes.py], [graph.py]) and of its state ([backend/models/state.py]),
    with the properties of the page-window scanner, the page-end calculator,
    the section extractor and the graph that drives them.

    Python values are modelled as follows.
    - [int] is [Z]; list indices and lengths are [nat].
    - [str] is a list of Unicode code points ([pystr]); literals of the
      source are decoded from their UTF-8 text by [u].
    - a [dict] with a fixed set of keys is a record; a key that may be
      absent is an [option] field, and [d.get(k, dflt)] is [default].
    - an exception caught by a node is the message [str(e)] it carries.
    - the services a run talks to (the MCP server, the chat model, the file
      system) are a record of answers, [World]; a node is a function of the
      answer it gets and of the state.
    - the engine that drives the graph is the function [run]: it calls the
      current node, follows the edge and stops at ["__end__"]; a bound on the
      number of visits stands for its recursion limit.
    - wall-clock values ([created_at], [updated_at], the time stamp that
      [add_log] puts in front of an entry) are not modelled. *)

From Stdlib Require Import ZArith NArith Lia Ascii String.
From stdpp Require Import base option list sorting gmap.

#[local] Open Scope Z_scope.

(** ** Python primitives used by the pipeline *)

Module Py.

(** A [str]: the sequence of its code points. *)
Definition pystr : Type := list N.

(** Decoding of UTF-8 source text (one to four bytes per code point). *)
Fixpoint utf8_decode (bs : list N) : pystr :=
  match bs with
  | [] => []
  | b0 :: r0 =>
    if (b0 <? 0x80)%N then b0 :: utf8_decode r0
    else if (b0 <? 0xE0)%N then
      match r0 with
      | b1 :: r1 => ((b0 mod 0x20) * 0x40 + b1 mod 0x40)%N :: utf8_decode r1
      | _ => []
      end
    else if (b0 <? 0xF0)%N then
      match r0 with
      | b1 :: b2 :: r2 =>
        ((b0 mod 0x10) * 0x1000 + (b1 mod 0x40) * 0x40 + b2 mod 0x40)%N
          :: utf8_decode r2
      | _ => []
      end
    else
      match r0 with
      | b1 :: b2 :: b3 :: r3 =>
        ((b0 mod 0x08) * 0x40000 + (b1 mod 0x40) * 0x1000
         + (b2 mod 0x40) * 0x40 + b3 mod 0x40)%N :: utf8_decode r3
      | _ => []
      end
  end.

(** A string literal of the source. *)
Definition u (s : string) : pystr :=
  utf8_decode (map N_of_ascii (list_ascii_of_string s)).

Fixpoint uint_digits (d : Decimal.uint) : pystr :=
  match d with
  | Decimal.Nil => []
  | Decimal.D0 d => 48%N :: uint_digits d
  | Decimal.D1 d => 49%N :: uint_digits d
  | Decimal.D2 d => 50%N :: uint_digits d
  | Decimal.D3 d => 51%N :: uint_digits d
  | Decimal.D4 d => 52%N :: uint_digits d
  | Decimal.D5 d => 53%N :: uint_digits d
  | Decimal.D6 d => 54%N :: uint_digits d
  | Decimal.D7 d => 55%N :: uint_digits d
  | Decimal.D8 d => 56%N :: uint_digits d
  | Decimal.D9 d => 57%N :: uint_digits d
  end.

(** [str(n)] for an [int]. *)
Definition str_int (z : Z) : pystr :=
  match Z.to_int z with
  | Decimal.Pos d => uint_digits d
  | Decimal.Neg d => 45%N :: uint_digits d
  end.

(** [sep.join(parts)] *)
Fixpoint join (sep : pystr) (parts : list pystr) : pystr :=
  match parts with
  | [] => []
  | [p] => p
  | p :: ps => p ++ sep ++ join sep ps
  end.

(** [str(l)] for a list of [int]: [[1, 2, 3]]. *)
Definition str_int_list (l : list Z) : pystr :=
  u"[" ++ join (u", ") (map str_int l) ++ u"]".

(** [list(range(lo, hi))] *)
Definition range (lo hi : Z) : list Z :=
  map (fun i => lo + Z.of_nat i) (seq 0 (Z.to_nat (hi - lo))).

(** [c.isspace()]: the code points that [str.strip()] removes. *)
Definition isspace (c : N) : bool :=
  ((0x09 <=? c) && (c <=? 0x0D) || (0x1C <=? c) && (c <=? 0x20)
   || (c =? 0x85) || (c =? 0xA0) || (c =? 0x1680)
   || (0x2000 <=? c) && (c <=? 0x200A)
   || (c =? 0x2028) || (c =? 0x2029) || (c =? 0x202F) || (c =? 0x205F)
   || (c =? 0x3000))%N.

Fixpoint lstrip (s : pystr) : pystr :=
  match s with
  | c :: s' => if isspace c then lstrip s' else s
  | [] => []
  end.

Definition rstrip (s : pystr) : pystr := reverse (lstrip (reverse s)).

(** [s.strip()] *)
Definition strip (s : pystr) : pystr := rstrip (lstrip s).

(** [s.startswith(p)] *)
Fixpoint startswith (s p : pystr) {struct p} : bool :=
  match p, s with
  | [], _ => true
  | _ :: _, [] => false
  | c :: p', d :: s' => (c =? d)%N && startswith s' p'
  end.

(** [s.find(sub)]: the lowest index where [sub] occurs, [None] for -1. *)
Fixpoint find (s sub : pystr) : option nat :=
  if startswith s sub then Some 0%nat
  else match s with
       | [] => None
       | _ :: s' => S <$> find s' sub
       end.

(** [sub in s] *)
Definition contains (sub s : pystr) : bool := bool_decide (is_Some (find s sub)).

(** [s.count(sub)] for a non-empty [sub]: occurrences that do not overlap,
    counted from the left.  The fuel is the length of [s]. *)
Fixpoint count_from (fuel : nat) (s sub : pystr) : nat :=
  match fuel with
  | O => 0
  | S fuel' =>
    match find s sub with
    | None => 0
    | Some i => S (count_from fuel' (drop (i + length sub) s) sub)
    end
  end.

Definition count (s sub : pystr) : nat := count_from (length s) s sub.

(** [s.lower()].  The case mapping comes from the Unicode tables of the
    interpreter, which are not part of the repository: it is a parameter. *)
Class Unicode : Type := { lower : pystr -> pystr }.

(** The case mapping restricted to the ASCII letters; [str.lower] acts like
    this on every string made of ASCII characters. *)
Definition lower_ascii : Unicode :=
  {| lower := map (fun c => if (0x41 <=? c)%N && (c <=? 0x5A)%N
                            then (c + 0x20)%N else c) |}.

(** [x or y] on strings that may be missing ([None]) or empty. *)
Definition truthy (o : option pystr) : option pystr :=
  match o with
  | Some (_ :: _) => o
  | _ => None
  end.

(** [sorted(l, key=...)]: Python's sort is stable and ascending.  [leb x y]
    compares the keys of [x] and [y].  An element is put in front of the
    first later element whose key is not smaller, so elements with equal keys
    keep the order they had in [l]. *)
Section sorted.
Context {A : Type} (leb : A -> A -> bool).

Fixpoint insert_sorted (x : A) (l : list A) : list A :=
  match l with
  | [] => [x]
  | y :: l' => if leb x y then x :: y :: l' else y :: insert_sorted x l'
  end.

Fixpoint sorted (l : list A) : list A :=
  match l with
  | [] => []
  | x :: l' => insert_sorted x (sorted l')
  end.

End sorted.

(** The comparison of two elements by an integer key. *)
Definition key_leb {A : Type} (key : A -> Z) (x y : A) : bool :=
  key x <=? key y.

Definition key_le {A : Type} (key : A -> Z) (x y : A) : Prop :=
  key x <= key y.

(** [sorted(list(set(l)))] on integers. *)
Definition sorted_set (l : list Z) : list Z :=
  sorted (key_leb (fun z => z)) (elements (list_to_set l : gset Z)).

End Py.

(** ** [difflib.SequenceMatcher], as far as the pipeline uses it

    [SequenceMatcher(None, a, b)] has no junk predicate and keeps the default
    [autojunk=True]; the only method called is [find_longest_match]. *)

Module Difflib.
Import Py.
#[local] Open Scope nat_scope.

(** [Match(a, b, size)] *)
Record Match : Set := { m_a : nat; m_b : nat; m_size : nat }.

(** First loop of [__chain_b]: [b2j[x]] is the list of the indices of [b] at
    which [x] appears, in ascending order. *)
Definition chain_b_index (b : pystr) : gmap N (list nat) :=
  foldl (fun (b2j : gmap N (list nat)) '(i, elt) =>
           <[elt := default [] (b2j !! elt) ++ [i]]> b2j)
        ∅ (imap pair b).

(** [__chain_b]: there is no junk to purge, and the elements that appear
    more than [n // 100 + 1] times in a [b] of 200 elements or more
    ("popular" elements) are deleted from [b2j]. *)
Definition chain_b (b : pystr) : gmap N (list nat) :=
  let b2j := chain_b_index b in
  let n := length b in
  if (200 <=? n)%nat then
    let ntest := (n / 100 + 1)%nat in
    filter (fun '(_, idxs) => ¬ (ntest < length idxs)%nat) b2j
  else b2j.

(** [j2len.get(j-1, 0)] *)
Definition j2len_prev (j2len : gmap nat nat) (j : nat) : nat :=
  match j with
  | O => 0
  | S j' => default 0 (j2len !! j')
  end.

(** The inner loop of [find_longest_match], over the indices [js] of
    [b2j.get(a[i], [])]. *)
Fixpoint scan_row (j2len : gmap nat nat) (i blo bhi : nat) (js : list nat)
    (newj2len : gmap nat nat) (best : Match) : gmap nat nat * Match :=
  match js with
  | [] => (newj2len, best)
  | j :: js' =>
    if (j <? blo)%nat then scan_row j2len i blo bhi js' newj2len best
    else if (bhi <=? j)%nat then (newj2len, best)
    else
      let k := (j2len_prev j2len j + 1)%nat in
      let best' :=
        if (m_size best <? k)%nat
        then {| m_a := i + 1 - k; m_b := j + 1 - k; m_size := k |}
        else best in
      scan_row j2len i blo bhi js' (<[j := k]> newj2len) best'
  end.

(** The outer loop, over the rows [is] of [range(alo, ahi)].  [a[i]] raises
    [IndexError] out of range: the result is then [None]. *)
Fixpoint scan_rows (a : pystr) (b2j : gmap N (list nat)) (blo bhi : nat)
    (rows : list nat) (j2len : gmap nat nat) (best : Match) : option Match :=
  match rows with
  | [] => Some best
  | i :: rows' =>
    ai ← a !! i;
    let '(newj2len, best') :=
      scan_row j2len i blo bhi (default [] (b2j !! ai)) ∅ best in
    scan_rows a b2j blo bhi rows' newj2len best'
  end.

(** First [while]: the block grows to the left as long as the elements in
    front of it are equal.  The recursion is on [besti]. *)
Fixpoint extend_left (a b : pystr) (alo blo : nat) (besti bestj bestsize : nat)
    : option Match :=
  match besti with
  | O => Some {| m_a := besti; m_b := bestj; m_size := bestsize |}
  | S i' =>
    if (alo <? besti)%nat && (blo <? bestj)%nat then
      y ← b !! (bestj - 1)%nat;
      x ← a !! i';
      if (x =? y)%N
      then extend_left a b alo blo i' (bestj - 1)%nat (bestsize + 1)%nat
      else Some {| m_a := besti; m_b := bestj; m_size := bestsize |}
    else Some {| m_a := besti; m_b := bestj; m_size := bestsize |}
  end.

(** Second [while]: the block grows to the right.  [fuel] bounds the number
    of iterations; [ahi - (besti + bestsize)] is enough. *)
Fixpoint extend_right (a b : pystr) (ahi bhi : nat) (fuel : nat)
    (besti bestj bestsize : nat) : option Match :=
  match fuel with
  | O => Some {| m_a := besti; m_b := bestj; m_size := bestsize |}
  | S fuel' =>
    if (besti + bestsize <? ahi)%nat && (bestj + bestsize <? bhi)%nat then
      y ← b !! (bestj + bestsize)%nat;
      x ← a !! (besti + bestsize)%nat;
      if (x =? y)%N
      then extend_right a b ahi bhi fuel' besti bestj (bestsize + 1)%nat
      else Some {| m_a := besti; m_b := bestj; m_size := bestsize |}
    else Some {| m_a := besti; m_b := bestj; m_size := bestsize |}
  end.

(** [SequenceMatcher(None, a, b).find_longest_match(alo, ahi, blo, bhi)].
    The last two [while] loops of the method only absorb junk elements; with
    no junk predicate they never run.  [None] stands for an [IndexError]. *)
Definition find_longest_match (a b : pystr) (alo ahi blo bhi : nat)
    : option Match :=
  m0 ← scan_rows a (chain_b b) blo bhi (seq alo (ahi - alo)) ∅
         {| m_a := alo; m_b := blo; m_size := 0 |};
  m1 ← extend_left a b alo blo (m_a m0) (m_b m0) (m_size m0);
  extend_right a b ahi bhi (ahi - (m_a m1 + m_size m1))
    (m_a m1) (m_b m1) (m_size m1).

End Difflib.

(** ** The job state: [backend/models/state.py] *)

Module State.
Import Py.

(** [JobStatus]: the constants of the class. *)
Inductive JobStatus : Set :=
  | IDLE | RUNNING | DETECTING | DETECTED | PARSING | PARSED
  | EXTRACTING | EXTRACTED | SAVING | COMPLETED | FAILED.

#[export] Instance JobStatus_eq_dec : EqDecision JobStatus.
Proof. solve_decision. Defined.

(** The string each constant stands for. *)
Definition status_str (st : JobStatus) : pystr :=
  match st with
  | IDLE => u"idle" | RUNNING => u"running" | DETECTING => u"detecting"
  | DETECTED => u"detected" | PARSING => u"parsing" | PARSED => u"parsed"
  | EXTRACTING => u"extracting" | EXTRACTED => u"extracted"
  | SAVING => u"saving" | COMPLETED => u"completed" | FAILED => u"failed"
  end.

(** One layout span of [pdf.parse_layout_spans]. [font_size] is kept as the
    text the f-string of [node_llm_parse_toc] renders for it. *)
Record Span : Type := {
  span_page : option Z;
  span_line_id : option Z;
  span_span_id : option Z;
  span_text : option pystr;
  span_font_name : option pystr;
  span_font_size : option pystr;
  span_bold : option bool;
}.

(** One outline entry: an element of the [parsed] list of the model's
    answer. *)
Record Entry : Type := {
  level_1 : option pystr;
  level_2 : option pystr;
  level_3 : option pystr;
  kwan : option pystr;
  jo : option pystr;
  page_start : option Z;
  page_end : option Z;
}.

(** The answer of the outline model, kept in [toc_parsed]. *)
Record TocParsed : Type := {
  tp_status : option Z;
  tp_message : option pystr;
  tp_parsed : option (list Entry);
}.

(** One section of [sections]: the entry merged with the meta data
    ([{**item, **meta}]).  The keys that only one of the two branches of
    [node_extract_ranges] writes are optional. *)
Record Section : Type := {
  sec_item : Entry;
  sec_text : pystr;
  sec_title : pystr;
  sec_para_count : option Z;
  sec_char_count : option Z;
  sec_has_table : option bool;
  sec_has_figure : option bool;
  sec_pages : option (list Z);
  sec_section_id : option Z;
  sec_error : option pystr;
}.

(** [ParserState] (a [TypedDict] with [total=False]). *)
Record ParserState : Type := {
  doc_id : pystr;
  total_pages : option Z;
  window_size : option Z;
  window_start : option Z;
  toc_pages : option (list Z);
  spans : option (list Span);
  toc_parsed : option TocParsed;
  sections : option (list Section);
  csv_path : option pystr;
  job_status : JobStatus;
  logs : list pystr;
  error : option pystr;
}.

(** [state[key] = value], one definition per key that the nodes write. *)
Definition set_total_pages (v : Z) (s : ParserState) : ParserState :=
  {| doc_id := doc_id s; total_pages := Some v; window_size := window_size s;
     window_start := window_start s; toc_pages := toc_pages s;
     spans := spans s; toc_parsed := toc_parsed s; sections := sections s;
     csv_path := csv_path s; job_status := job_status s; logs := logs s;
     error := error s |}.

Definition set_window_start (v : Z) (s : ParserState) : ParserState :=
  {| doc_id := doc_id s; total_pages := total_pages s;
     window_size := window_size s; window_start := Some v;
     toc_pages := toc_pages s; spans := spans s; toc_parsed := toc_parsed s;
     sections := sections s; csv_path := csv_path s;
     job_status := job_status s; logs := logs s; error := error s |}.

Definition set_toc_pages (v : list Z) (s : ParserState) : ParserState :=
  {| doc_id := doc_id s; total_pages := total_pages s;
     window_size := window_size s; window_start := window_start s;
     toc_pages := Some v; spans := spans s; toc_parsed := toc_parsed s;
     sections := sections s; csv_path := csv_path s;
     job_status := job_status s; logs := logs s; error := error s |}.

Definition set_spans (v : list Span) (s : ParserState) : ParserState :=
  {| doc_id := doc_id s; total_pages := total_pages s;
     window_size := window_size s; window_start := window_start s;
     toc_pages := toc_pages s; spans := Some v; toc_parsed := toc_parsed s;
     sections := sections s; csv_path := csv_path s;
     job_status := job_status s; logs := logs s; error := error s |}.

Definition set_toc_parsed (v : TocParsed) (s : ParserState) : ParserState :=
  {| doc_id := doc_id s; total_pages := total_pages s;
     window_size := window_size s; window_start := window_start s;
     toc_pages := toc_pages s; spans := spans s; toc_parsed := Some v;
     sections := sections s; csv_path := csv_path s;
     job_status := job_status s; logs := logs s; error := error s |}.

Definition set_sections (v : list Section) (s : ParserState) : ParserState :=
  {| doc_id := doc_id s; total_pages := total_pages s;
     window_size := window_size s; window_start := window_start s;
     toc_pages := toc_pages s; spans := spans s; toc_parsed := toc_parsed s;
     sections := Some v; csv_path := csv_path s;
     job_status := job_status s; logs := logs s; error := error s |}.

Definition set_csv_path (v : pystr) (s : ParserState) : ParserState :=
  {| doc_id := doc_id s; total_pages := total_pages s;
     window_size := window_size s; window_start := window_start s;
     toc_pages := toc_pages s; spans := spans s; toc_parsed := toc_parsed s;
     sections := sections s; csv_path := Some v;
     job_status := job_status s; logs := logs s; error := error s |}.

Definition set_job_status (v : JobStatus) (s : ParserState) : ParserState :=
  {| doc_id := doc_id s; total_pages := total_pages s;
     window_size := window_size s; window_start := window_start s;
     toc_pages := toc_pages s; spans := spans s; toc_parsed := toc_parsed s;
     sections := sections s; csv_path := csv_path s;
     job_status := v; logs := logs s; error := error s |}.

Definition set_logs (v : list pystr) (s : ParserState) : ParserState :=
  {| doc_id := doc_id s; total_pages := total_pages s;
     window_size := window_size s; window_start := window_start s;
     toc_pages := toc_pages s; spans := spans s; toc_parsed := toc_parsed s;
     sections := sections s; csv_path := csv_path s;
     job_status := job_status s; logs := v; error := error s |}.

Definition set_error_key (v : pystr) (s : ParserState) : ParserState :=
  {| doc_id := doc_id s; total_pages := total_pages s;
     window_size := window_size s; window_start := window_start s;
     toc_pages := toc_pages s; spans := spans s; toc_parsed := toc_parsed s;
     sections := sections s; csv_path := csv_path s;
     job_status := job_status s; logs := logs s; error := Some v |}.

(** [create_initial_state(doc_id, window_size)] *)
Definition create_initial_state (doc : pystr) (ws : Z) : ParserState :=
  {| doc_id := doc; total_pages := None; window_size := Some ws;
     window_start := Some 0; toc_pages := Some []; spans := None;
     toc_parsed := None; sections := None; csv_path := None;
     job_status := IDLE; logs := []; error := None |}.

(** [update_state_status(state, status, log_message)] *)
Definition update_state_status (s : ParserState) (st : JobStatus)
    (log_message : pystr) : ParserState :=
  let s1 := set_job_status st s in
  match log_message with
  | [] => s1
  | _ :: _ =>
    set_logs (logs s1 ++ [u"[" ++ status_str st ++ u"] " ++ log_message]) s1
  end.

(** [add_log(state, message, level)]; the entry is [level: message], after a
    time stamp that is left out here. *)
Definition add_log (s : ParserState) (message level : pystr) : ParserState :=
  set_logs (logs s ++ [level ++ u": " ++ message]) s.

Definition INFO : pystr := u"INFO".

(** [set_error(state, error_message)] *)
Definition set_error (s : ParserState) (error_message : pystr) : ParserState :=
  let s1 := set_error_key error_message s in
  let s2 := set_job_status FAILED s1 in
  add_log s2 (u"ERROR: " ++ error_message) (u"ERROR").

End State.

(** ** Settings: [backend/config.py] *)

Module Config.
Import Py.

(** The settings the pipeline reads; they can be overridden from the
    environment. *)
Class Settings : Type := { WINDOW_SIZE : Z; OUTPUT_DIR : pystr }.

(** The defaults of the class [Settings]. *)
Definition default_settings : Settings :=
  {| WINDOW_SIZE := 5; OUTPUT_DIR := u"outputs" |}.

End Config.

(** ** The clients: [backend/clients] *)

Module Clients.
Import Py.

(** What [mcp_call] does: it raises [MCPClientError] after an HTTP error or
    after any other exception, or it returns the [result] of the answer. *)
Inductive McpOutcome (A : Type) : Type :=
  | McpHttpError (e : pystr)
  | McpException (e : pystr)
  | McpResult (r : A).
Arguments McpHttpError {A} e.
Arguments McpException {A} e.
Arguments McpResult {A} r.

(** A call seen from the node: [inl] is [str(e)] of the [MCPClientError]
    raised, [inr] the value returned. *)
Definition mcp_call {A : Type} (o : McpOutcome A) : pystr + A :=
  match o with
  | McpHttpError e => inl (u"MCP 통신 실패: " ++ e)
  | McpException e => inl (u"MCP 예외: " ++ e)
  | McpResult r => inr r
  end.

(** The answer to a detection prompt, after [json.loads].
    - [DetectRaise]: [gpt5_chat] raised, or the answer has the wrong shape
      and an exception is raised before the state is written;
    - [DetectBadJson]: [json.loads] raised [JSONDecodeError];
    - [DetectResult]: the keys [toc_pages], [confidence] and [reason].
      [confidence] is given as the text [{confidence:.2f}] renders ([inl]),
      or as the message of the exception that the rendering raises
      ([inr]). *)
Inductive DetectAnswer : Type :=
  | DetectRaise (e : pystr)
  | DetectBadJson (e : pystr)
  | DetectResult (toc_pages : list Z) (confidence : pystr + pystr)
      (reason : pystr).

(** The answer to the outline prompt, after [json.loads]. *)
Inductive ParseAnswer : Type :=
  | ParseRaise (e : pystr)
  | ParseBadJson (e : pystr)
  | ParseResult (r : State.TocParsed).

End Clients.

(** ** The nodes: [backend/langgraph/nodes.py] *)

Module Nodes.
Import Py Difflib State Config Clients.

Section nodes.
Context {unicode : Unicode} {settings : Settings}.

(** [node_doc_info]; [info] is the outcome of [pdf_get_info(doc_id)], the
    value of its key [page_count]. *)
Definition node_doc_info (info : McpOutcome (option Z)) (s : ParserState)
    : ParserState :=
  match mcp_call info with
  | inl e => set_error s (u"문서 정보 조회 실패: " ++ e)
  | inr page_count =>
    let total := default 0 page_count in
    if total <=? 0
    then set_error s (u"유효하지 않은 문서: 페이지 수 " ++ str_int total)
    else
      update_state_status (set_total_pages total s) RUNNING
        (u"문서 정보 조회 완료: " ++ str_int total ++ u"페이지")
  end.

(** [node_detect_toc_window]; [chat pages] is the answer to the prompt built
    for the pages of the window.  [state["total_pages"]] raises [KeyError]
    when the key is missing, which the [except] of the node catches. *)
Definition node_detect_toc_window (chat : list Z -> DetectAnswer)
    (s : ParserState) : ParserState :=
  let ws := default WINDOW_SIZE (window_size s) in
  let start := default 0 (window_start s) in
  match total_pages s with
  | None => set_error s (u"목차 탐지 실패: " ++ u"'total_pages'")
  | Some total =>
    let end_ := Z.min (start + ws) total in
    let pages := range start end_ in
    match chat pages with
    | DetectRaise e => set_error s (u"목차 탐지 실패: " ++ e)
    | DetectBadJson e => set_error s (u"목차 탐지 응답 파싱 실패: " ++ e)
    | DetectResult detected_pages confidence reason =>
      let existing_pages := default [] (toc_pages s) in
      let all_toc_pages := sorted_set (existing_pages ++ detected_pages) in
      let s := set_toc_pages all_toc_pages s in
      let s := set_window_start end_ s in
      match confidence with
      | inr e => set_error s (u"목차 탐지 실패: " ++ e)
      | inl conf =>
        let log_msg :=
          u"윈도우 " ++ str_int start ++ u"-" ++ str_int (end_ - 1)
          ++ u" 탐지 완료: 발견=" ++ str_int_list detected_pages
          ++ u", 신뢰도=" ++ conf in
        let s := add_log s log_msg INFO in
        match detected_pages with
        | [] => s
        | _ :: _ => add_log s (u"탐지 근거: " ++ reason) INFO
        end
      end
    end
  end.

(** [node_extract_spans]; [parse pages] is the outcome of
    [pdf_parse_layout_spans(doc_id, pages)], the value of its key [spans]. *)
Definition node_extract_spans
    (parse : list Z -> McpOutcome (option (list Span))) (s : ParserState)
    : ParserState :=
  match default [] (toc_pages s) with
  | [] => set_error s (u"목차 페이지가 발견되지 않음")
  | (_ :: _) as pages =>
    match mcp_call (parse pages) with
    | inl e => set_error s (u"스팬 추출 실패: " ++ e)
    | inr result =>
      match default [] result with
      | [] => set_error s (u"스팬 데이터 추출 실패")
      | (_ :: _) as spans =>
        update_state_status (set_spans spans s) DETECTED
          (u"스팬 추출 완료: " ++ str_int (Z.of_nat (length spans))
           ++ u"개 스팬, 페이지 " ++ str_int_list pages)
      end
    end
  end.

(** The sort key of a span, [(page, line_id, span_id)], compared as Python
    compares tuples. *)
Definition span_key_leb (x y : Span) : bool :=
  let px := default 0 (span_page x) in
  let py := default 0 (span_page y) in
  let lx := default 0 (span_line_id x) in
  let ly := default 0 (span_line_id y) in
  let sx := default 0 (span_span_id x) in
  let sy := default 0 (span_span_id y) in
  (px <? py) || ((px =? py) && ((lx <? ly) || ((lx =? ly) && (sx <=? sy)))).

(** The text block of one span, [None] when the span is skipped. *)
Definition span_block (span : Span) : option pystr :=
  let text := strip (default [] (span_text span)) in
  if (length text <? 2)%nat then None
  else
    let font_name := default (u"Unknown") (span_font_name span) in
    let font_size := default (u"0") (span_font_size span) in
    let bold := default false (span_bold span) in
    let page := default 0 (span_page span) in
    let line_id := default 0 (span_line_id span) in
    Some (u"페이지 " ++ str_int (page + 1) ++ u", 라인 "
          ++ str_int (line_id + 1) ++ u": " ++ text ++ u" [" ++ font_name
          ++ u", " ++ font_size ++ u"pt"
          ++ (if bold then u"_Bold" else []) ++ u"]").

(** [node_llm_parse_toc]; [chat blocks] is the answer to the prompt built
    from the text blocks. *)
Definition node_llm_parse_toc (chat : list pystr -> ParseAnswer)
    (s : ParserState) : ParserState :=
  match default [] (spans s) with
  | [] => set_error s (u"파싱할 스팬 데이터가 없음")
  | (_ :: _) as spans =>
    let spans_sorted := sorted span_key_leb spans in
    match omap span_block spans_sorted with
    | [] => set_error s (u"유효한 텍스트 블록이 없음")
    | (_ :: _) as blocks =>
      match chat blocks with
      | ParseRaise e => set_error s (u"목차 파싱 실패: " ++ e)
      | ParseBadJson e => set_error s (u"목차 파싱 응답 파싱 실패: " ++ e)
      | ParseResult result =>
        let status := default 500 (tp_status result) in
        let parsed_items := default [] (tp_parsed result) in
        if negb (status =? 200) || bool_decide (parsed_items = [])
        then set_error s (default (u"목차 파싱 실패") (tp_message result))
        else
          update_state_status (set_toc_parsed result s) PARSED
            (u"목차 파싱 완료: " ++ str_int (Z.of_nat (length parsed_items))
             ++ u"개 항목")
      end
    end
  end.

(** [int(x.get("page_start", 0))] *)
Definition start_of (x : Entry) : Z := default 0 (page_start x).

(** [x["page_end"] = v] *)
Definition set_page_end (v : Z) (x : Entry) : Entry :=
  {| level_1 := level_1 x; level_2 := level_2 x; level_3 := level_3 x;
     kwan := kwan x; jo := jo x; page_start := page_start x;
     page_end := Some v |}.

(** One iteration of the loop of [node_calc_page_end], at index [i]; the
    entries are updated in place. *)
Definition calc_page_end_step (total_pages : Z) (items_sorted : list Entry)
    (i : nat) : list Entry :=
  if bool_decide (i + 1 < length items_sorted)%nat then
    match items_sorted !! (i + 1)%nat with
    | Some next =>
      let next_start := start_of next in
      alter (set_page_end (Z.max 0 (next_start - 1))) i items_sorted
    | None => items_sorted
    end
  else alter (set_page_end (Z.max 0 (total_pages - 1))) i items_sorted.

(** The sort and the loop of [node_calc_page_end]. *)
Definition calc_page_end (items : list Entry) (total_pages : Z) : list Entry :=
  let items_sorted := sorted (key_leb start_of) items in
  foldl (calc_page_end_step total_pages) items_sorted
        (seq 0 (length items_sorted)).

(** [toc_data["parsed"] = items] *)
Definition set_tp_parsed (items : list Entry) (r : TocParsed) : TocParsed :=
  {| tp_status := tp_status r; tp_message := tp_message r;
     tp_parsed := Some items |}.

(** The items a node reads: [state.get("toc_parsed", {}).get("parsed", [])] *)
Definition parsed_items_of (s : ParserState) : list Entry :=
  default [] (toc_parsed s ≫= tp_parsed).

(** [node_calc_page_end] *)
Definition node_calc_page_end (s : ParserState) : ParserState :=
  match toc_parsed s, parsed_items_of s with
  | Some toc_data, (_ :: _) as items =>
    let total_pages := default 0 (total_pages s) in
    let items_sorted := calc_page_end items total_pages in
    let s := set_toc_parsed (set_tp_parsed items_sorted toc_data) s in
    add_log s (u"page_end 자동 계산 완료") INFO
  | _, _ => set_error s (u"계산할 목차 데이터가 없음")
  end.

(** [int(len(title) * 0.8)].  The product is computed in floating point and
    truncated; for every length below 2^50 the result is the integer
    quotient of [4 * len(title)] by 5, which is what is written here. *)
Definition title_threshold (title : pystr) : nat :=
  Nat.max 3 (4 * length title / 5).

(** [extract_content_after_title(full_content, title)] *)
Definition extract_content_after_title (full_content title : pystr) : pystr :=
  match title, full_content with
  | [], _ | _, [] => full_content
  | _ :: _, _ :: _ =>
    match find full_content title with
    | Some pos => strip (drop (pos + length title) full_content)
    | None =>
      match find_longest_match (lower title) (lower full_content)
              0 (length title) 0 (length full_content) with
      | Some m =>
        if (title_threshold title <? m_size m)%nat
        then strip (drop (m_b m + m_size m) full_content)
        else full_content
      | None => full_content
      end
    end
  end.

(** The title of an entry:
    [jo or kwan or level_3 or level_2 or level_1 or f"섹션 {i}"]. *)
Definition entry_title (item : Entry) (i : Z) : pystr :=
  default (u"섹션 " ++ str_int i)
    (truthy (jo item) ∪ truthy (kwan item) ∪ truthy (level_3 item)
     ∪ truthy (level_2 item) ∪ truthy (level_1 item)).

(** The body of the loop of [node_extract_ranges] for the entry [item] with
    ordinal [i]; [read pages] is the outcome of [pdf_read(doc_id, pages)], the
    value of its key [plain]. *)
Definition extract_section
    (read : list Z -> McpOutcome (option pystr)) (i : Z) (item : Entry)
    : Section :=
  let start_page := start_of item in
  let end_page := default start_page (page_end item) in
  let pages :=
    if start_page <=? end_page then range start_page (end_page + 1)
    else [start_page] in
  match mcp_call (read pages) with
  | inr content_result =>
    let full_content := default [] content_result in
    let title := entry_title item i in
    let pure_content := extract_content_after_title full_content title in
    {| sec_item := item;
       sec_text := pure_content;
       sec_para_count :=
         Some (match strip pure_content with
               | [] => 0
               | _ :: _ => Z.of_nat (count pure_content [10; 10]%N) + 1
               end);
       sec_char_count := Some (Z.of_nat (length (strip pure_content)));
       sec_has_table :=
         Some (contains (u"표") pure_content
               || contains (u"Table") pure_content);
       sec_has_figure :=
         Some (contains (u"그림") pure_content
               || contains (u"Figure") pure_content
               || contains (u"도") pure_content);
       sec_pages := Some pages;
       sec_title := title;
       sec_section_id := Some i;
       sec_error := None |}
  | inl e =>
    {| sec_item := item;
       sec_text := [];
       sec_title := u"섹션 " ++ str_int i ++ u" (추출 실패)";
       sec_para_count := None; sec_char_count := None;
       sec_has_table := None; sec_has_figure := None; sec_pages := None;
       sec_section_id := None;
       sec_error := Some e |}
  end.

(** [node_extract_ranges]; [read i] answers the request made for the entry
    with ordinal [i] ([enumerate(parsed_items, 1)]). *)
Definition node_extract_ranges
    (read : nat -> list Z -> McpOutcome (option pystr)) (s : ParserState)
    : ParserState :=
  match parsed_items_of s with
  | [] => set_error s (u"추출할 섹션 데이터가 없음")
  | (_ :: _) as parsed_items =>
    let sections :=
      imap (fun k item => extract_section (read (S k)) (Z.of_nat (S k)) item)
           parsed_items in
    update_state_status (set_sections sections s) EXTRACTED
      (u"본문 추출 완료: " ++ str_int (Z.of_nat (length sections))
       ++ u"개 섹션")
  end.

(** [os.path.join(a, b)] for a relative [b]. *)
Definition path_join (a b : pystr) : pystr := a ++ u"/" ++ b.

(** The two files written for one section, named after [section_id]. *)
Definition section_paths (doc : pystr) (section : Section) : list pystr :=
  let section_id := default 0 (sec_section_id section) in
  let base_dir := path_join OUTPUT_DIR doc in
  [ path_join base_dir (u"section_" ++ str_int section_id ++ u".txt");
    path_join base_dir (u"section_" ++ str_int section_id ++ u".json") ].

(** [node_write_csv]; [write paths] is the outcome of creating the directory
    and writing the files in the order given: [None], or the message of the
    exception raised.  The contents of the files are not modelled. *)
Definition node_write_csv (write : list pystr -> option pystr)
    (s : ParserState) : ParserState :=
  match default [] (sections s) with
  | [] => set_error s (u"저장할 섹션 데이터가 없음")
  | (_ :: _) as sections =>
    let csv_path := path_join OUTPUT_DIR (doc_id s ++ u"_parsed.csv") in
    match write (concat (map (section_paths (doc_id s)) sections)
                 ++ [csv_path]) with
    | Some e => set_error s (u"CSV 저장 실패: " ++ e)
    | None =>
      update_state_status (set_csv_path csv_path s) COMPLETED
        (u"CSV 저장 완료: " ++ csv_path)
    end
  end.

(** [node_fail] *)
Definition node_fail (s : ParserState) : ParserState :=
  let error_msg := default (u"알 수 없는 오류") (error s) in
  update_state_status s FAILED (u"파이프라인 실패: " ++ error_msg).

End nodes.
End Nodes.

(** ** The graph: [backend/langgraph/graph.py] *)

Module Graph.
Import Py State Config Clients Nodes.

(** The labels [cond_after_detect] returns: ["continue"], ["next"],
    ["no_toc"]. *)
Inductive DetectBranch : Set := Continue | Next | NoToc.

(** The labels [cond_after_parse] returns: ["success"], ["fail"]. *)
Inductive ParseBranch : Set := Success | ParseFail.

(** [cond_after_detect] *)
Definition cond_after_detect (s : ParserState) : DetectBranch :=
  let total_pages := default 0 (total_pages s) in
  let current_cursor := default 0 (window_start s) in
  if current_cursor <? total_pages then Continue
  else
    match default [] (toc_pages s) with
    | _ :: _ => Next
    | [] => NoToc
    end.

(** [cond_after_parse] *)
Definition cond_after_parse (s : ParserState) : ParseBranch :=
  let status := default 500 (toc_parsed s ≫= tp_status) in
  let parsed_items := default [] (toc_parsed s ≫= tp_parsed) in
  match parsed_items with
  | _ :: _ => if status =? 200 then Success else ParseFail
  | [] => ParseFail
  end.

(** The nodes added by [create_parser_graph], and ["__end__"]. *)
Inductive Node : Set :=
  | DocInfo | DetectToc | ExtractSpans | LlmToc | CalcEnd | ExtractRanges
  | WriteCsv | Fail | End_.

#[export] Instance Node_eq_dec : EqDecision Node.
Proof. solve_decision. Defined.

(** The edges and the conditional edges of the graph: the node that follows
    [n], given the state that [n] returned. *)
Definition next_node (n : Node) (s : ParserState) : Node :=
  match n with
  | DocInfo => DetectToc
  | DetectToc =>
    match cond_after_detect s with
    | Continue => DetectToc
    | Next => ExtractSpans
    | NoToc => Fail
    end
  | ExtractSpans => LlmToc
  | LlmToc =>
    match cond_after_parse s with
    | Success => CalcEnd
    | ParseFail => Fail
    end
  | CalcEnd => ExtractRanges
  | ExtractRanges => WriteCsv
  | WriteCsv => End_
  | Fail => End_
  | End_ => End_
  end.

(** The services a run talks to.  The detection model is asked once per
    visit of [detect_toc]: [chat_detect k] answers the call number [k]. *)
Record World : Type := {
  pdf_get_info : McpOutcome (option Z);
  chat_detect : nat -> list Z -> DetectAnswer;
  pdf_parse_layout_spans : list Z -> McpOutcome (option (list Span));
  chat_parse : list pystr -> ParseAnswer;
  pdf_read : nat -> list Z -> McpOutcome (option pystr);
  write_files : list pystr -> option pystr;
}.

Section graph.
Context {unicode : Unicode} {settings : Settings}.

(** The function registered for each node; [k] counts the detection calls
    made so far. *)
Definition run_node (w : World) (n : Node) (k : nat) (s : ParserState)
    : ParserState :=
  match n with
  | DocInfo => node_doc_info (pdf_get_info w) s
  | DetectToc => node_detect_toc_window (chat_detect w k) s
  | ExtractSpans => node_extract_spans (pdf_parse_layout_spans w) s
  | LlmToc => node_llm_parse_toc (chat_parse w) s
  | CalcEnd => node_calc_page_end s
  | ExtractRanges => node_extract_ranges (pdf_read w) s
  | WriteCsv => node_write_csv (write_files w) s
  | Fail => node_fail s
  | End_ => s
  end.

(** The engine: it calls the current node, then follows the edge.  The
    result is the list of the visits (the node and the state it returned)
    and the final state; [fuel] bounds the number of visits, and the final
    state is [None] when the bound is reached before ["__end__"]. *)
Fixpoint run (fuel : nat) (w : World) (n : Node) (k : nat) (s : ParserState)
    : list (Node * ParserState) * option ParserState :=
  match n with
  | End_ => ([], Some s)
  | _ =>
    match fuel with
    | O => ([], None)
    | S fuel' =>
      let s' := run_node w n k s in
      let k' := if decide (n = DetectToc) then S k else k in
      let '(visits, final) := run fuel' w (next_node n s') k' s' in
      ((n, s') :: visits, final)
    end
  end.

(** [run_parsing_flow(doc_id, window_size=...)]: the graph is entered at
    [doc_info] with the initial state. *)
Definition run_parsing_flow (fuel : nat) (w : World) (doc : pystr) (ws : Z)
    : list (Node * ParserState) * option ParserState :=
  run fuel w DocInfo 0 (create_initial_state doc ws).

End graph.

(** The cursor after each detection call of a run that starts in state
    [s0], with the cursor of [s0] in front. *)
Definition cursors (s0 : ParserState) (visits : list (Node * ParserState))
    : list Z :=
  map (fun s => default 0 (window_start s))
      (s0 :: map snd (filter (fun v => v.1 = DetectToc) visits)).

(** The windows between successive cursors, as lists of pages. *)
Fixpoint windows (cs : list Z) : list (list Z) :=
  match cs with
  | c :: ((c' :: _) as cs') => range c c' :: windows cs'
  | _ => []
  end.

End Graph.

(** ** Notions used in the statements *)

Module Notions.
Import Py State Nodes.

(** The ends that the page-end calculator writes on a list already sorted:
    the start of the next entry minus one, the last page for the last entry,
    both clamped at 0. *)
Fixpoint assign_ends (total_pages : Z) (l : list Entry) : list Entry :=
  match l with
  | [] => []
  | x :: l' =>
    set_page_end
      match l' with
      | [] => Z.max 0 (total_pages - 1)
      | y :: _ => Z.max 0 (start_of y - 1)
      end x
    :: assign_ends total_pages l'
  end.

(** The pages requested for an entry by [node_extract_ranges]: from the
    start page to the end page, or the start page alone when the end page is
    smaller. *)
Definition entry_pages (item : Entry) : list Z :=
  let start_page := start_of item in
  let end_page := default start_page (page_end item) in
  if start_page <=? end_page then range start_page (end_page + 1)
  else [start_page].

End Notions.

(** ** Sample inputs *)

Module Samples.
Import Py State Config Clients Nodes.

(** An outline entry as the model is told to emit it: a start page, and 0
    for the end page. *)
Definition entry_at (start : Z) : Entry :=
  {| level_1 := None; level_2 := None; level_3 := None; kwan := None;
     jo := None; page_start := Some start; page_end := Some 0 |}.

(** A state after a successful outline parse, with one entry and a page
    count of 0. *)
Definition state_parsed_no_page : ParserState :=
  {| doc_id := u"doc"; total_pages := Some 0; window_size := Some 5;
     window_start := Some 0; toc_pages := Some [0]; spans := None;
     toc_parsed := Some {| tp_status := Some 200; tp_message := None;
                           tp_parsed := Some [entry_at 3] |};
     sections := None; csv_path := None; job_status := PARSED; logs := [];
     error := None |}.

(** The example of the exact title match. *)
Definition sample_title : pystr := u"제1조 보험계약의 성립".

Definition sample_content : pystr := u"...제1조 보험계약의 성립 본문내용...".

(** A title in capitals, and a text of 201 characters in which the title
    appears in small letters only. *)
Definition capital_title : pystr := u"ABCDE".

Definition repetitive_content : pystr :=
  u"x" ++ concat (replicate 40 (u"abcde")).

(** A title that a short text has in small letters. *)
Definition short_content : pystr := u"1. abcde body".

End Samples.

(** ** Notions for the detection loop *)

Module LoopNotions.
Import Graph.

(** The number of visits left from a node that comes after the detection
    loop. *)
Definition visits_left (n : Node) : nat :=
  match n with
  | ExtractSpans => 5 | LlmToc => 4 | CalcEnd => 3 | ExtractRanges => 2
  | WriteCsv => 1 | Fail => 1 | End_ => 0
  | DocInfo | DetectToc => 0
  end.

(** The nodes that come after the detection loop. *)
Definition after_detect (n : Node) : Prop := n <> DocInfo /\ n <> DetectToc.

(** The cursors that successive detection calls leave, from the cursor [c]:
    each call moves the cursor to [min(c + ws, tp)], and the loop goes on
    while the cursor is below [tp].  [fuel] bounds the number of calls. *)
Fixpoint cursor_seq (fuel : nat) (ws tp c : Z) : list Z :=
  match fuel with
  | O => []
  | S fuel' =>
    let c' := Z.min (c + ws) tp in
    c' :: if c' <? tp then cursor_seq fuel' ws tp c' else []
  end.

(** The nodes up to the outline parser. *)
Definition before_parse (n : Node) : Prop :=
  n = DocInfo \/ n = DetectToc \/ n = ExtractSpans \/ n = LlmToc.

(** The states in which detection has found nothing so far and nothing
    has failed; [c] is the cursor. *)
Definition searching (tp ws c : Z) (s : State.ParserState) : Prop :=
  State.total_pages s = Some tp /\ State.window_size s = Some ws
  /\ State.window_start s = Some c /\ State.toc_pages s = Some []
  /\ State.error s = None /\ State.job_status s = State.RUNNING.

End LoopNotions.

(** ** Sample services *)

Module Worlds.
Import Py State Config Clients Nodes Graph Samples.

Definition sample_span : Span :=
  {| span_page := Some 0; span_line_id := Some 0; span_span_id := Some 0;
     span_text := Some (u"제1조 보험계약의 성립 ..... 3");
     span_font_name := Some (u"Arial"); span_font_size := Some (u"12");
     span_bold := Some false |}.

(** Services that all answer: the document has [pages] pages, the
    detection call number [k] reports the pages [found k], the outline has
    two entries, every page reads as the same text, and the files are
    written. *)
Definition world_ok (pages : Z) (found : nat -> list Z) : World :=
  {| pdf_get_info := McpResult (Some pages);
     chat_detect := fun k _ =>
       DetectResult (found k) (inl (u"0.95")) (u"목차 구조 확인");
     pdf_parse_layout_spans := fun _ => McpResult (Some [sample_span]);
     chat_parse := fun _ =>
       ParseResult {| tp_status := Some 200;
                      tp_message := Some (u"목차가 확인되었습니다.");
                      tp_parsed := Some [entry_at 3; entry_at 1] |};
     pdf_read := fun _ _ => McpResult (Some (u"섹션 본문"));
     write_files := fun _ => None |}.

(** A state in which the page count is known and the cursor is at 0. *)
Definition state_at_detect (pages ws : Z) : ParserState :=
  set_total_pages pages (create_initial_state (u"doc") ws).

(** The same services, but the layout service returns no span. *)
Definition world_no_spans : World :=
  {| pdf_get_info := McpResult (Some 1);
     chat_detect := chat_detect (world_ok 1 (fun _ => [0]));
     pdf_parse_layout_spans := fun _ => McpResult (Some []);
     chat_parse := chat_parse (world_ok 1 (fun _ => [0]));
     pdf_read := pdf_read (world_ok 1 (fun _ => [0]));
     write_files := write_files (world_ok 1 (fun _ => [0])) |}.

(** The same services, but the first answer of the detection model is not
    JSON; the second one is. *)
Definition world_detect_retry : World :=
  {| pdf_get_info := McpResult (Some 1);
     chat_detect := fun k pages =>
       match k with
       | O => DetectBadJson (u"Expecting value: line 1 column 1 (char 0)")
       | S _ => chat_detect (world_ok 1 (fun _ => [0])) k pages
       end;
     pdf_parse_layout_spans :=
       pdf_parse_layout_spans (world_ok 1 (fun _ => [0]));
     chat_parse := chat_parse (world_ok 1 (fun _ => [0]));
     pdf_read := pdf_read (world_ok 1 (fun _ => [0]));
     write_files := write_files (world_ok 1 (fun _ => [0])) |}.

(** The same services, but the page count is 0. *)
Definition world_no_page : World :=
  {| pdf_get_info := McpResult (Some 0);
     chat_detect := chat_detect (world_ok 1 (fun _ => [0]));
     pdf_parse_layout_spans :=
       pdf_parse_layout_spans (world_ok 1 (fun _ => [0]));
     chat_parse := chat_parse (world_ok 1 (fun _ => [0]));
     pdf_read := pdf_read (world_ok 1 (fun _ => [0]));
     write_files := write_files (world_ok 1 (fun _ => [0])) |}.

(** The same services, but reading the pages of the entry with ordinal
    [bad] fails, and the outline has the entries [items]. *)
Definition world_read_fails (bad : nat) (items : list Entry) : World :=
  {| pdf_get_info := McpResult (Some 10);
     chat_detect := chat_detect (world_ok 10 (fun _ => [0]));
     pdf_parse_layout_spans :=
       pdf_parse_layout_spans (world_ok 10 (fun _ => [0]));
     chat_parse := fun _ =>
       ParseResult {| tp_status := Some 200; tp_message := None;
                      tp_parsed := Some items |};
     pdf_read := fun i pages =>
       if decide (i = bad) then McpHttpError (u"timed out")
       else McpResult (Some (u"섹션 본문"));
     write_files := fun _ => None |}.

(** The same services, but the files cannot be written. *)
Definition world_write_fails : World :=
  {| pdf_get_info := McpResult (Some 1);
     chat_detect := chat_detect (world_ok 1 (fun _ => [0]));
     pdf_parse_layout_spans :=
       pdf_parse_layout_spans (world_ok 1 (fun _ => [0]));
     chat_parse := chat_parse (world_ok 1 (fun _ => [0]));
     pdf_read := pdf_read (world_ok 1 (fun _ => [0]));
     write_files := fun _ => Some (u"[Errno 28] No space left on device") |}.

End Worlds.

(** ** Notions on strings *)

Module StrNotions.
Import Py Difflib.
#[local] Open Scope nat_scope.

(** [sub] occurs in [s] at the index [pos]. *)
Definition occurs_at (sub s : pystr) (pos : nat) : Prop :=
  exists post, drop pos s = sub ++ post.

(** [sub] is a substring of [s]. *)
Definition occurs (sub s : pystr) : Prop :=
  exists pre post, s = pre ++ sub ++ post.

(** [pos] is the index of the first occurrence of [sub] in [s]. *)
Definition first_occurrence (sub s : pystr) (pos : nat) : Prop :=
  occurs_at sub s pos /\ forall p, p < pos -> ~ occurs_at sub s p.

(** [a[i:i+k]] and [b[j:j+k]] are the same [k] elements. *)
Definition common_block (a b : pystr) (i j k : nat) : Prop :=
  forall t, t < k -> exists x, a !! (i + t) = Some x /\ b !! (j + t) = Some x.

(** [m] is a longest common block of [a] and [b]; among the longest
    blocks it is the one that starts first in [a], and among those the one
    that starts first in [b]. *)
Definition longest_first (a b : pystr) (m : Match) : Prop :=
  common_block a b (m_a m) (m_b m) (m_size m)
  /\ forall i j k, common_block a b i j k ->
       k <= m_size m
       /\ (k = m_size m -> 1 <= k ->
           m_a m < i \/ (m_a m = i /\ m_b m <= j)).

(** The length of the longest common suffix of [a[:i+1]] and [b[:j+1]]. *)
Fixpoint suffix_len (a b : pystr) (i j : nat) {struct i} : nat :=
  match a !! i, b !! j with
  | Some x, Some y =>
    if (x =? y)%N then
      S match i, j with
        | S i', S j' => suffix_len a b i' j'
        | _, _ => 0
        end
    else 0
  | _, _ => 0
  end.

(** The indices, from [off] on, at which [c] appears in a list whose first
    element has the index [off]. *)
Fixpoint positions_from (off : nat) (c : N) (b : pystr) : list nat :=
  match b with
  | [] => []
  | x :: b' =>
    if (x =? c)%N then off :: positions_from (S off) c b'
    else positions_from (S off) c b'
  end.

(** The cell [(i', j')] comes before the cell [(i, j)] when the rows are
    read one after the other. *)
Definition cell_before (i j i' j' : nat) : Prop :=
  i' < i \/ (i' = i /\ j' < j).

(** What [find_longest_match] knows when it reaches the cell [(i, j)]:
    [best] is a common block that starts inside [a] and [b] and ends in a
    cell already read, no cell
    already read ends a longer common block, and none that ends a block of
    the same length comes before the end of [best]. *)
Definition best_so_far (a b : pystr) (i j : nat) (best : Match) : Prop :=
  common_block a b (m_a best) (m_b best) (m_size best)
  /\ (m_a best <= length a /\ m_b best <= length b)
  /\ (1 <= m_size best ->
      cell_before i j (m_a best + m_size best - 1)
                      (m_b best + m_size best - 1))
  /\ forall i' j', cell_before i j i' j' ->
       suffix_len a b i' j' <= m_size best
       /\ (suffix_len a b i' j' = m_size best -> 1 <= m_size best ->
           ~ cell_before (m_a best + m_size best - 1)
                         (m_b best + m_size best - 1) i' j').

(** [newj2len] while the row [i] is read, up to the column [off]. *)
Definition row_known (a b : pystr) (i off : nat) (m : gmap nat nat) : Prop :=
  forall j, default 0 (m !! j) = if j <? off then suffix_len a b i j else 0.

(** [j2len] when the row [i] starts: the lengths found in the row before. *)
Definition prev_row (a b : pystr) (i : nat) (m : gmap nat nat) : Prop :=
  forall j, default 0 (m !! j)
            = match i with O => 0 | S i' => suffix_len a b i' j end.

End StrNotions.

(** * Properties *)

(** ** Facts about the Python primitives *)

Section sorted_facts.
Import Py.
Context {A : Type} (key : A -> Z).

Lemma insert_sorted_perm x l : insert_sorted (key_leb key) x l ≡ₚ x :: l.
Proof.
  induction l as [|y l IH]; simpl; [done|].
  unfold key_leb at 1. destruct (key x <=? key y); [done|].
  rewrite IH. apply Permutation_swap.
Qed.

Lemma sorted_perm l : sorted (key_leb key) l ≡ₚ l.
Proof.
  induction l as [|x l IH]; simpl; [done|].
  by rewrite insert_sorted_perm, IH.
Qed.

Lemma sorted_length l : length (sorted (key_leb key) l) = length l.
Proof. by rewrite sorted_perm. Qed.

Lemma insert_sorted_StronglySorted x l :
  StronglySorted (key_le key) l -> StronglySorted (key_le key) (insert_sorted (key_leb key) x l).
Proof.
  induction 1 as [|y l Hl IH Hy]; simpl.
  - repeat constructor.
  - unfold key_leb at 1. destruct (Z.leb_spec (key x) (key y)) as [Hxy|Hxy].
    + constructor; [by constructor|].
      constructor; [done|].
      eapply Forall_impl; [exact Hy|]. unfold key_le. intros; lia.
    + constructor; [done|].
      rewrite insert_sorted_perm. constructor; [unfold key_le; lia | done].
Qed.

Lemma sorted_StronglySorted l : StronglySorted (key_le key) (sorted (key_leb key) l).
Proof.
  induction l; simpl; [constructor | by apply insert_sorted_StronglySorted].
Qed.

Lemma insert_sorted_filter (k : Z) x l :
  filter (fun e => key e = k) (insert_sorted (key_leb key) x l)
  = filter (fun e => key e = k) (x :: l).
Proof.
  induction l as [|y l IH]; simpl; [done|].
  unfold key_leb at 1. destruct (Z.leb_spec (key x) (key y)) as [Hxy|Hxy]; [done|].
  rewrite !filter_cons in *.
  destruct (decide (key y = k)), (decide (key x = k)); rewrite IH; try done; lia.
Qed.

Lemma sorted_stable (k : Z) l :
  filter (fun e => key e = k) (sorted (key_leb key) l)
  = filter (fun e => key e = k) l.
Proof.
  induction l as [|x l IH]; simpl; [done|].
  rewrite insert_sorted_filter, !filter_cons. by rewrite IH.
Qed.

Lemma sorted_id l : StronglySorted (key_le key) l -> sorted (key_leb key) l = l.
Proof.
  induction 1 as [|x l Hl IH Hx]; simpl; [done|].
  rewrite IH. destruct Hx as [|y l Hxy _]; simpl; [done|].
  unfold key_leb, key_le in *. by rewrite (proj2 (Z.leb_le _ _) Hxy).
Qed.

End sorted_facts.

Section sorted_set_facts.
Import Py.

Lemma sorted_set_elem_of (l : list Z) x : x ∈ sorted_set l ↔ x ∈ l.
Proof.
  unfold sorted_set.
  rewrite (sorted_perm (fun z => z) (elements (list_to_set l : gset Z))).
  rewrite elem_of_elements. apply elem_of_list_to_set.
Qed.

Lemma StronglySorted_le_NoDup_lt (l : list Z) :
  StronglySorted Z.le l -> NoDup l -> StronglySorted Z.lt l.
Proof.
  induction 1 as [|x l Hl IH Hx]; intros Hnd; [constructor|].
  apply NoDup_cons in Hnd as [Hx' Hnd].
  constructor; [auto|].
  apply Forall_forall. intros y Hy.
  rewrite Forall_forall in Hx. specialize (Hx y Hy).
  assert (x <> y) by (intros ->; done). lia.
Qed.

Lemma sorted_set_StronglySorted (l : list Z) :
  StronglySorted Z.lt (sorted_set l).
Proof.
  apply StronglySorted_le_NoDup_lt.
  - apply (sorted_StronglySorted (fun z => z)).
  - unfold sorted_set.
    rewrite (sorted_perm (fun z => z) (elements (list_to_set l : gset Z))).
    apply NoDup_elements.
Qed.

Lemma sorted_set_nil : sorted_set [] = [].
Proof. unfold sorted_set. simpl. by rewrite elements_empty. Qed.

End sorted_set_facts.

(** The sort is determined by its contract. *)

Section sorted_unique.
Import Py.
Context {A : Type} (key : A -> Z).

(** Two lists sorted by key in which the elements of each key are the same,
    in the same order, are equal. *)
Lemma key_sorted_unique (l1 l2 : list A) :
  StronglySorted (key_le key) l1 -> StronglySorted (key_le key) l2 ->
  (forall k, filter (fun e => key e = k) l1 = filter (fun e => key e = k) l2) ->
  l1 = l2.
Proof.
  revert l2. induction l1 as [|x r1 IH]; intros [|y r2] Hs1 Hs2 Hf.
  - done.
  - specialize (Hf (key y)). rewrite filter_cons_True in Hf by done. done.
  - specialize (Hf (key x)). rewrite filter_cons_True in Hf by done. done.
  - apply StronglySorted_inv in Hs1 as [Hs1 Hx].
    apply StronglySorted_inv in Hs2 as [Hs2 Hy].
    rewrite Forall_forall in Hx, Hy.
    assert (Hxy : key y <= key x).
    { assert (Hin : x ∈ filter (fun e => key e = key x) (y :: r2)).
      { rewrite <- Hf. rewrite filter_cons_True by done. left. }
      apply list_elem_of_filter in Hin as [_ Hin].
      apply elem_of_cons in Hin as [->|Hin]; [lia|]. by apply Hy. }
    assert (Hyx : key x <= key y).
    { assert (Hin : y ∈ filter (fun e => key e = key y) (x :: r1)).
      { rewrite Hf. rewrite filter_cons_True by done. left. }
      apply list_elem_of_filter in Hin as [_ Hin].
      apply elem_of_cons in Hin as [->|Hin]; [lia|]. by apply Hx. }
    assert (Hk : key x = key y) by lia.
    pose proof (Hf (key x)) as Hhead.
    rewrite !filter_cons_True in Hhead by done.
    injection Hhead as -> Hrest.
    f_equal. apply IH; [done|done|].
    intros k. destruct (decide (key y = k)) as [<-|Hne]; [done|].
    specialize (Hf k). by rewrite !filter_cons_False in Hf by done.
Qed.

(** Any stable ascending sort returns what [sorted] returns. *)
Lemma sorted_unique (l l' : list A) :
  StronglySorted (key_le key) l' ->
  (forall k, filter (fun e => key e = k) l' = filter (fun e => key e = k) l) ->
  l' = sorted (key_leb key) l.
Proof.
  intros Hs Hf. apply key_sorted_unique; [done|apply sorted_StronglySorted|].
  intros k. by rewrite sorted_stable.
Qed.

End sorted_unique.

(** ** The page-end calculator *)

Section calc_page_end_facts.
Import Py State Nodes Notions.

Lemma start_of_set_page_end v x : start_of (set_page_end v x) = start_of x.
Proof. done. Qed.

Lemma set_page_end_twice v w x :
  set_page_end v (set_page_end w x) = set_page_end v x.
Proof. done. Qed.

(** The loop, started at index [length pre] with the entries in front
    already done, writes the ends of the closed form. *)
Lemma calc_loop_from total pre l :
  foldl (calc_page_end_step total) (pre ++ l) (seq (length pre) (length l))
  = pre ++ assign_ends total l.
Proof.
  revert pre. induction l as [|x l IH]; intros pre; simpl; [done|].
  assert (Hstep : calc_page_end_step total (pre ++ x :: l) (length pre)
    = (pre ++ [set_page_end
                 match l with
                 | [] => Z.max 0 (total - 1)
                 | y :: _ => Z.max 0 (start_of y - 1)
                 end x]) ++ l).
  { unfold calc_page_end_step. rewrite length_app. simpl.
    destruct l as [|y l'].
    - rewrite bool_decide_eq_false_2 by (simpl; lia).
      rewrite alter_app_r_alt by lia. rewrite Nat.sub_diag. simpl.
      by rewrite <- app_assoc.
    - rewrite bool_decide_eq_true_2 by (simpl; lia).
      rewrite lookup_app_r by lia.
      replace (length pre + 1 - length pre)%nat with 1%nat by lia. simpl.
      rewrite alter_app_r_alt by lia. rewrite Nat.sub_diag. simpl.
      by rewrite <- app_assoc. }
  rewrite Hstep.
  specialize (IH (pre ++ [set_page_end
                 match l with
                 | [] => Z.max 0 (total - 1)
                 | y :: _ => Z.max 0 (start_of y - 1)
                 end x])).
  rewrite length_app in IH. simpl in IH.
  rewrite Nat.add_1_r in IH. rewrite IH. by rewrite <- app_assoc.
Qed.

Lemma calc_page_end_closed items total :
  calc_page_end items total
  = assign_ends total (sorted (key_leb start_of) items).
Proof.
  unfold calc_page_end. apply (calc_loop_from total []).
Qed.

Lemma assign_ends_length total l : length (assign_ends total l) = length l.
Proof. induction l; simpl; auto. Qed.

Lemma assign_ends_lookup total l i x :
  l !! i = Some x ->
  assign_ends total l !! i
  = Some (set_page_end
            match l !! S i with
            | Some y => Z.max 0 (start_of y - 1)
            | None => Z.max 0 (total - 1)
            end x).
Proof.
  revert i. induction l as [|z l IH]; intros i Hi; [done|].
  destruct i as [|i]; simpl in *.
  - inversion Hi; subst. by destruct l.
  - by apply IH.
Qed.

Lemma assign_ends_starts total l :
  map start_of (assign_ends total l) = map start_of l.
Proof. induction l; simpl; [done|]. by f_equal. Qed.

Lemma assign_ends_nonneg total l x :
  x ∈ assign_ends total l -> exists e, page_end x = Some e /\ 0 <= e.
Proof.
  induction l as [|z l IH]; simpl; intros Hx; [by apply elem_of_nil in Hx|].
  apply elem_of_cons in Hx as [->|Hx]; [|auto].
  simpl. eexists; split; [done|]. destruct l; lia.
Qed.

Lemma assign_ends_idem total l :
  assign_ends total (assign_ends total l) = assign_ends total l.
Proof.
  induction l as [|x l IH]; simpl; [done|].
  rewrite IH. f_equal. destruct l; simpl; done.
Qed.

Lemma StronglySorted_key_map {A} (key : A -> Z) (l l' : list A) :
  map key l = map key l' ->
  StronglySorted (key_le key) l -> StronglySorted (key_le key) l'.
Proof.
  revert l'. induction l as [|x l IH]; intros [|x' l'] Hm Hs;
    try discriminate.
  - constructor.
  - simpl in Hm. injection Hm as Hx Hm.
    apply StronglySorted_inv in Hs as [Hs Hall].
    constructor; [by eapply IH|].
    apply Forall_forall. intros y Hy.
    apply list_elem_of_fmap_2 with (f := key) in Hy.
    change (key y ∈ map key l') in Hy. rewrite <- Hm in Hy.
    apply list_elem_of_fmap in Hy as (z & Hz & Hzl).
    rewrite Forall_forall in Hall. specialize (Hall z Hzl).
    unfold key_le in *. lia.
Qed.

Lemma calc_page_end_idem items total :
  calc_page_end (calc_page_end items total) total = calc_page_end items total.
Proof.
  rewrite !calc_page_end_closed.
  rewrite (sorted_id start_of).
  - apply assign_ends_idem.
  - eapply StronglySorted_key_map; [symmetry; apply assign_ends_starts|].
    apply sorted_StronglySorted.
Qed.

End calc_page_end_facts.

Section calc_page_end_claims.
Import Py State Nodes Notions Samples.

Lemma node_calc_page_end_items s :
  parsed_items_of s <> [] ->
  parsed_items_of (node_calc_page_end s)
  = calc_page_end (parsed_items_of s) (default 0 (total_pages s))
  /\ job_status (node_calc_page_end s) = job_status s
  /\ error (node_calc_page_end s) = error s
  /\ total_pages (node_calc_page_end s) = total_pages s.
Proof.
  unfold node_calc_page_end, parsed_items_of.
  destruct (toc_parsed s) as [toc_data|]; simpl; [|done].
  destruct (tp_parsed toc_data) as [[|x items]|]; simpl; done.
Qed.

Lemma node_calc_page_end_nonempty s toc_data items :
  toc_parsed s = Some toc_data -> tp_parsed toc_data = Some items ->
  items <> [] ->
  node_calc_page_end s
  = add_log
      (set_toc_parsed
         (set_tp_parsed (calc_page_end items (default 0 (total_pages s)))
            toc_data) s)
      (u"page_end 자동 계산 완료") INFO.
Proof.
  intros Htoc Hp Hne. unfold node_calc_page_end, parsed_items_of.
  rewrite Htoc. simpl. rewrite Hp. simpl. by destruct items.
Qed.

Lemma calc_page_end_nonempty items total :
  items <> [] -> calc_page_end items total <> [].
Proof.
  intros Hne Hnil. apply (f_equal length) in Hnil.
  rewrite calc_page_end_closed, assign_ends_length, sorted_length in Hnil.
  by destruct items.
Qed.

Lemma node_calc_page_end_empty s :
  parsed_items_of s = [] ->
  node_calc_page_end s = set_error s (u"계산할 목차 데이터가 없음").
Proof.
  unfold node_calc_page_end. intros ->. by destruct (toc_parsed s).
Qed.

(** C2. The page-end calculator sorts the entries by start page with a
    stable sort: the sorted list is a permutation of the entries, ascending
    by start, and the entries with the same start keep their order.  The
    result has, at each index, the entry of the sorted list with its end set
    to the start of the next entry minus one, or to [total_pages - 1] for the
    last entry, clamped at 0.  No end is negative, and the starts 15, 30, 45
    with 60 pages give the ends 29, 44, 59.  The node stores this result. *)
Theorem C2_calc_page_end_ends (items : list Entry) (total : Z) :
  items <> [] ->
  let srt := sorted (key_leb start_of) items in
  let res := calc_page_end items total in
  srt ≡ₚ items
  /\ StronglySorted (key_le start_of) srt
  /\ (forall k, filter (fun e => start_of e = k) srt
                = filter (fun e => start_of e = k) items)
  /\ length res = length items
  /\ (forall i x, srt !! i = Some x ->
        res !! i = Some (set_page_end
                           match srt !! S i with
                           | Some y => Z.max 0 (start_of y - 1)
                           | None => Z.max 0 (total - 1)
                           end x))
  /\ (forall x, x ∈ res -> exists e, page_end x = Some e /\ 0 <= e)
  /\ (map start_of items = [15; 30; 45] -> total = 60 ->
      map page_end res = [Some 29; Some 44; Some 59])
  /\ (forall s, parsed_items_of s = items -> default 0 (total_pages s) = total ->
      parsed_items_of (node_calc_page_end s) = res).
Proof.
  intros Hne srt res. subst res. rewrite calc_page_end_closed. fold srt.
  split; [apply sorted_perm|].
  split; [apply sorted_StronglySorted|].
  split; [intros k; apply sorted_stable|].
  split; [rewrite assign_ends_length; apply sorted_length|].
  split; [intros i x; apply assign_ends_lookup|].
  split; [intros x; apply assign_ends_nonneg|].
  split.
  - intros Hst ->. subst srt.
    destruct items as [|a [|b [|c [|d items]]]]; try discriminate.
    injection Hst as Ha Hb Hc.
    rewrite (sorted_id start_of)
      by (repeat constructor; unfold key_le; lia).
    simpl. by rewrite Hb, Hc.
  - intros s Hs Ht. subst srt. rewrite <- calc_page_end_closed.
    rewrite <- Hs, <- Ht. apply node_calc_page_end_items. by rewrite Hs.
Qed.

Lemma C2_calc_page_end_ends_witness :
  [entry_at 30; entry_at 30; entry_at 15] <> []
  /\ map page_end (calc_page_end [entry_at 30; entry_at 30; entry_at 15] 60)
     = [Some 29; Some 29; Some 59].
Proof.
  split; [done|].
  pose proof (C2_calc_page_end_ends
                [entry_at 30; entry_at 30; entry_at 15] 60 ltac:(done)) as H.
  destruct H as (_ & _ & _ & _ & H & _).
  apply list_eq. intros [|[|[|i]]]; rewrite list_lookup_fmap;
    [rewrite (H 0%nat (entry_at 15) eq_refl)
    |rewrite (H 1%nat (entry_at 30) eq_refl)
    |rewrite (H 2%nat (entry_at 30) eq_refl)|]; reflexivity.
Defined.



(** C9. Running the page-end calculator on entries it has already resolved,
    with the same [total_pages], returns the same entries in the same order
    with the same ends; the node, run twice, stores the same outline. *)
Theorem C9_calc_page_end_idempotent (items : list Entry) (total : Z)
    (s : ParserState) :
  calc_page_end (calc_page_end items total) total = calc_page_end items total
  /\ toc_parsed (node_calc_page_end (node_calc_page_end s))
     = toc_parsed (node_calc_page_end s).
Proof.
  split; [apply calc_page_end_idem|].
  destruct (parsed_items_of s) as [|x items'] eqn:Hitems.
  - rewrite (node_calc_page_end_empty s) by done.
    rewrite node_calc_page_end_empty; done.
  - unfold parsed_items_of in Hitems.
    destruct (toc_parsed s) as [toc_data|] eqn:Htoc; [|done].
    simpl in Hitems.
    destruct (tp_parsed toc_data) as [its|] eqn:Hp; [|done].
    simpl in Hitems. subst its.
    rewrite (node_calc_page_end_nonempty s toc_data (x :: items')) by done.
    erewrite node_calc_page_end_nonempty;
      [|reflexivity|reflexivity|by apply calc_page_end_nonempty].
    simpl. by rewrite calc_page_end_idem.
Qed.

End calc_page_end_claims.

(** ** The state helpers *)

Section state_facts.
Import Py State.

(** The fields that [update_state_status], [add_log] and [set_error] leave
    as they are. *)
Lemma update_state_status_doc_id s st m :
  doc_id (update_state_status s st m) = doc_id s.
Proof. by destruct m. Qed.

Lemma add_log_doc_id s m lv : doc_id (add_log s m lv) = doc_id s.
Proof. done. Qed.

Lemma set_error_doc_id s m : doc_id (set_error s m) = doc_id s.
Proof. done. Qed.

Lemma update_state_status_total_pages s st m :
  total_pages (update_state_status s st m) = total_pages s.
Proof. by destruct m. Qed.

Lemma add_log_total_pages s m lv : total_pages (add_log s m lv) = total_pages s.
Proof. done. Qed.

Lemma set_error_total_pages s m : total_pages (set_error s m) = total_pages s.
Proof. done. Qed.

Lemma update_state_status_window_size s st m :
  window_size (update_state_status s st m) = window_size s.
Proof. by destruct m. Qed.

Lemma add_log_window_size s m lv : window_size (add_log s m lv) = window_size s.
Proof. done. Qed.

Lemma set_error_window_size s m : window_size (set_error s m) = window_size s.
Proof. done. Qed.

Lemma update_state_status_window_start s st m :
  window_start (update_state_status s st m) = window_start s.
Proof. by destruct m. Qed.

Lemma add_log_window_start s m lv : window_start (add_log s m lv) = window_start s.
Proof. done. Qed.

Lemma set_error_window_start s m : window_start (set_error s m) = window_start s.
Proof. done. Qed.

Lemma update_state_status_toc_pages s st m :
  toc_pages (update_state_status s st m) = toc_pages s.
Proof. by destruct m. Qed.

Lemma add_log_toc_pages s m lv : toc_pages (add_log s m lv) = toc_pages s.
Proof. done. Qed.

Lemma set_error_toc_pages s m : toc_pages (set_error s m) = toc_pages s.
Proof. done. Qed.

Lemma update_state_status_spans s st m :
  spans (update_state_status s st m) = spans s.
Proof. by destruct m. Qed.

Lemma add_log_spans s m lv : spans (add_log s m lv) = spans s.
Proof. done. Qed.

Lemma set_error_spans s m : spans (set_error s m) = spans s.
Proof. done. Qed.

Lemma update_state_status_toc_parsed s st m :
  toc_parsed (update_state_status s st m) = toc_parsed s.
Proof. by destruct m. Qed.

Lemma add_log_toc_parsed s m lv : toc_parsed (add_log s m lv) = toc_parsed s.
Proof. done. Qed.

Lemma set_error_toc_parsed s m : toc_parsed (set_error s m) = toc_parsed s.
Proof. done. Qed.

Lemma update_state_status_sections s st m :
  sections (update_state_status s st m) = sections s.
Proof. by destruct m. Qed.

Lemma add_log_sections s m lv : sections (add_log s m lv) = sections s.
Proof. done. Qed.

Lemma set_error_sections s m : sections (set_error s m) = sections s.
Proof. done. Qed.

Lemma update_state_status_csv_path s st m :
  csv_path (update_state_status s st m) = csv_path s.
Proof. by destruct m. Qed.

Lemma add_log_csv_path s m lv : csv_path (add_log s m lv) = csv_path s.
Proof. done. Qed.

Lemma set_error_csv_path s m : csv_path (set_error s m) = csv_path s.
Proof. done. Qed.

Lemma update_state_status_job_status s st m :
  job_status (update_state_status s st m) = st.
Proof. by destruct m. Qed.

Lemma update_state_status_error s st m :
  error (update_state_status s st m) = error s.
Proof. by destruct m. Qed.

Lemma add_log_job_status s m lv : job_status (add_log s m lv) = job_status s.
Proof. done. Qed.

Lemma add_log_error s m lv : error (add_log s m lv) = error s.
Proof. done. Qed.

Lemma set_error_job_status s m : job_status (set_error s m) = FAILED.
Proof. done. Qed.

Lemma set_error_error s m : error (set_error s m) = Some m.
Proof. done. Qed.

End state_facts.

Create Rewrite HintDb state.
#[export] Hint Rewrite
  update_state_status_doc_id add_log_doc_id set_error_doc_id
  update_state_status_total_pages add_log_total_pages set_error_total_pages
  update_state_status_window_size add_log_window_size set_error_window_size
  update_state_status_window_start add_log_window_start
  set_error_window_start update_state_status_toc_pages add_log_toc_pages
  set_error_toc_pages update_state_status_spans add_log_spans set_error_spans
  update_state_status_toc_parsed add_log_toc_parsed set_error_toc_parsed
  update_state_status_sections add_log_sections set_error_sections
  update_state_status_csv_path add_log_csv_path set_error_csv_path
  update_state_status_job_status update_state_status_error add_log_job_status
  add_log_error set_error_job_status set_error_error
  : state.

(** ** The detection node *)

Section detect_facts.
Import Py State Config Clients Nodes Graph.
Context {unicode : Unicode} {settings : Settings}.

(** The node asks the model about the pages of its window and about nothing
    else. *)
Lemma node_detect_toc_window_request chat chat' s tp :
  total_pages s = Some tp ->
  let start := default 0 (window_start s) in
  let ws := default WINDOW_SIZE (window_size s) in
  chat (range start (Z.min (start + ws) tp))
  = chat' (range start (Z.min (start + ws) tp)) ->
  node_detect_toc_window chat s = node_detect_toc_window chat' s.
Proof.
  intros Htp start ws Heq. unfold node_detect_toc_window.
  rewrite Htp. fold start ws. by rewrite Heq.
Qed.

(** What the node leaves in the fields the loop reads. *)
Lemma node_detect_toc_window_result chat s tp found conf reason :
  total_pages s = Some tp ->
  let start := default 0 (window_start s) in
  let ws := default WINDOW_SIZE (window_size s) in
  chat (range start (Z.min (start + ws) tp)) = DetectResult found conf reason ->
  let s' := node_detect_toc_window chat s in
  total_pages s' = Some tp
  /\ window_size s' = window_size s
  /\ window_start s' = Some (Z.min (start + ws) tp)
  /\ toc_pages s' = Some (sorted_set (default [] (toc_pages s) ++ found)).
Proof.
  intros Htp start ws Hchat. unfold node_detect_toc_window.
  rewrite Htp. fold start ws. rewrite Hchat.
  destruct conf as [c|e]; [destruct found|]; simpl; done.
Qed.

(** A call that does not get a result leaves the fields as they were. *)
Lemma node_detect_toc_window_toc_pages chat s :
  toc_pages (node_detect_toc_window chat s) = toc_pages s
  \/ exists found,
       toc_pages (node_detect_toc_window chat s)
       = Some (sorted_set (default [] (toc_pages s) ++ found)).
Proof.
  unfold node_detect_toc_window.
  destruct (total_pages s) as [tp|]; [|by left].
  destruct (chat _) as [e|e|found conf reason]; [by left|by left|].
  right. exists found. destruct conf; [destruct found|]; done.
Qed.

End detect_facts.

(** ** The engine *)

Section run_facts.
Import Py State Config Clients Nodes Graph LoopNotions.
Context {unicode : Unicode} {settings : Settings}.

Lemma run_unfold fuel w n k s :
  n <> End_ ->
  run (S fuel) w n k s
  = let s' := run_node w n k s in
    let k' := if decide (n = DetectToc) then S k else k in
    ((n, s') :: (run fuel w (next_node n s') k' s').1,
     (run fuel w (next_node n s') k' s').2).
Proof.
  intros Hn. destruct n; try done; simpl;
    by destruct (run fuel w _ _ _).
Qed.

Lemma run_end fuel w k s : run fuel w End_ k s = ([], Some s).
Proof. by destruct fuel. Qed.

(** A property that every node preserves holds after every visit, and of
    the final state. *)
Lemma run_invariant (P : ParserState -> Prop) w :
  (forall n k s, P s -> P (run_node w n k s)) ->
  forall fuel n k s, P s ->
    Forall (fun v => P v.2) (run fuel w n k s).1
    /\ (forall final, (run fuel w n k s).2 = Some final -> P final).
Proof.
  intros Hstep. induction fuel as [|fuel IH]; intros n k s Hs.
  - destruct n; simpl; split; try done; by intros ? [= <-].
  - destruct (decide (n = End_)) as [->|Hn].
    { rewrite run_end. split; [done|]. by intros ? [= <-]. }
    rewrite run_unfold by done. simpl.
    destruct (IH (next_node n (run_node w n k s))
                (if decide (n = DetectToc) then S k else k)
                (run_node w n k s)) as [IH1 IH2]; [by apply Hstep|].
    split; [constructor; [by apply Hstep|done]|done].
Qed.

Lemma next_node_after_detect n s :
  after_detect n ->
  after_detect (next_node n s)
  /\ (n <> End_ -> (visits_left (next_node n s) < visits_left n)%nat).
Proof.
  intros [H1 H2]. unfold after_detect.
  destruct n; simpl; try done;
    try (destruct (cond_after_parse s)); simpl; repeat split; try done; lia.
Qed.

(** After the loop the run ends, and it does not come back to the
    detection node. *)
Lemma run_after_detect fuel w n k s :
  after_detect n -> (visits_left n <= fuel)%nat ->
  is_Some (run fuel w n k s).2
  /\ filter (fun v => v.1 = DetectToc) (run fuel w n k s).1 = [].
Proof.
  revert n k s. induction fuel as [|fuel IH]; intros n k s Hn Hfuel.
  - destruct n; simpl in *; try lia; try (by destruct Hn as [? ?]); eauto.
  - destruct (decide (n = End_)) as [->|Hne].
    { rewrite run_end. eauto. }
    rewrite run_unfold by done. simpl.
    destruct (next_node_after_detect n (run_node w n k s) Hn) as [Ha Hlt].
    specialize (Hlt Hne).
    destruct (IH (next_node n (run_node w n k s))
                (if decide (n = DetectToc) then S k else k)
                (run_node w n k s) Ha) as [IH1 IH2]; [lia|].
    split; [done|].
    rewrite filter_cons. simpl.
    destruct (decide (n = DetectToc)) as [->|_]; [by destruct Hn|done].
Qed.

End run_facts.

(** ** The cursor of the detection loop *)

Section cursor_facts.
Import Py Graph LoopNotions.

Lemma range_nil lo hi : hi <= lo -> range lo hi = [].
Proof. intros. unfold range. by replace (Z.to_nat (hi - lo)) with 0%nat by lia. Qed.

Lemma range_app lo mid hi :
  lo <= mid -> mid <= hi -> range lo mid ++ range mid hi = range lo hi.
Proof.
  intros H1 H2. unfold range.
  replace (Z.to_nat (hi - lo))
    with (Z.to_nat (mid - lo) + Z.to_nat (hi - mid))%nat by lia.
  rewrite seq_app, map_app. f_equal.
  replace (seq (0 + Z.to_nat (mid - lo)) (Z.to_nat (hi - mid)))
    with ((fun x => Z.to_nat (mid - lo) + x)%nat
            <$> seq 0 (Z.to_nat (hi - mid)))
    by (rewrite fmap_add_seq; f_equal; lia).
  change (map ?f (?g <$> ?l)) with (f <$> (g <$> l)).
  rewrite <- list_fmap_compose. apply map_ext. intros i. simpl. lia.
Qed.

Variables ws tp : Z.
Hypothesis ws_pos : 1 <= ws.

Lemma cursor_seq_step fuel c i x :
  (c :: cursor_seq fuel ws tp c) !! i = Some x ->
  (S i < length (c :: cursor_seq fuel ws tp c))%nat ->
  (c :: cursor_seq fuel ws tp c) !! S i = Some (Z.min (x + ws) tp).
Proof.
  revert c i. induction fuel as [|fuel IH]; intros c i Hi Hlen.
  - simpl in Hlen. lia.
  - destruct i as [|i].
    + simpl in Hi. injection Hi as <-. done.
    + simpl in *. destruct (Z.min (c + ws) tp <? tp) eqn:Hlt.
      * apply IH; [done|simpl; lia].
      * simpl in Hlen. lia.
Qed.

Lemma cursor_seq_sorted fuel c :
  c <= tp ->
  Sorted Z.le (c :: cursor_seq fuel ws tp c)
  /\ (c < tp -> Sorted Z.lt (c :: cursor_seq fuel ws tp c)).
Proof.
  revert c. induction fuel as [|fuel IH]; intros c Hc.
  - simpl. split; repeat constructor.
  - simpl. destruct (Z.ltb_spec (Z.min (c + ws) tp) tp) as [Hlt|Hge].
    + destruct (IH (Z.min (c + ws) tp)) as [IH1 IH2]; [lia|].
      split; [|intros _]; constructor; auto; constructor; lia.
    + split; [|intros Hlt]; repeat constructor; lia.
Qed.

Lemma cursor_seq_cover fuel c :
  0 <= c -> c <= tp -> (Z.to_nat (tp - c) < fuel)%nat ->
  last (c :: cursor_seq fuel ws tp c) = Some tp
  /\ concat (windows (c :: cursor_seq fuel ws tp c)) = range c tp
  /\ (2 <= length (c :: cursor_seq fuel ws tp c))%nat.
Proof.
  revert c. induction fuel as [|fuel IH]; intros c Hc0 Hc Hfuel; [lia|].
  simpl cursor_seq.
  destruct (Z.ltb_spec (Z.min (c + ws) tp) tp) as [Hlt|Hge].
  - destruct (IH (Z.min (c + ws) tp)) as (IH1 & IH2 & IH3); [lia|lia|lia|].
    split; [|split].
    + rewrite last_cons. by rewrite IH1.
    + change (windows (c :: ?c' :: ?l))
        with (range c c' :: windows (c' :: l)).
      rewrite concat_cons, IH2. apply range_app; lia.
    + simpl in *. lia.
  - replace (Z.min (c + ws) tp) with tp by lia.
    split; [done|]. split; [|simpl; lia].
    simpl. by rewrite app_nil_r.
Qed.

End cursor_facts.

(** ** The detection loop of a run *)

Section detect_loop_facts.
Import Py State Config Clients Nodes Graph LoopNotions.
Context {unicode : Unicode} {settings : Settings}.

Lemma run_no_detect_after fuel w n k s :
  after_detect n ->
  filter (fun v => v.1 = DetectToc) (run fuel w n k s).1 = [].
Proof.
  revert n k s. induction fuel as [|fuel IH]; intros n k s Hn.
  - by destruct n.
  - destruct (decide (n = End_)) as [->|Hne]; [by rewrite run_end|].
    rewrite run_unfold by done. simpl.
    destruct (next_node_after_detect n (run_node w n k s) Hn) as [Ha _].
    rewrite filter_cons. simpl.
    destruct (decide (n = DetectToc)) as [->|_]; [by destruct Hn|].
    by apply IH.
Qed.

Lemma cond_after_detect_cursor s tp c :
  total_pages s = Some tp -> window_start s = Some c ->
  (c < tp -> cond_after_detect s = Continue)
  /\ (tp <= c -> cond_after_detect s <> Continue).
Proof.
  intros Htp Hc. unfold cond_after_detect. rewrite Htp, Hc. simpl.
  destruct (Z.ltb_spec c tp); split; intros; try lia; try done.
  by destruct (default [] (toc_pages s)).
Qed.

(** With answers that are results, the detection loop leaves the cursors of
    [cursor_seq], and the run ends. *)
Lemma run_detect_loop w tp ws :
  1 <= ws ->
  (forall k pages, exists found conf reason,
      chat_detect w k pages = DetectResult found conf reason) ->
  forall fuel k s c,
    total_pages s = Some tp -> window_size s = Some ws ->
    window_start s = Some c -> 0 <= c -> c <= tp ->
    map (fun s => default 0 (window_start s))
        (map snd (filter (fun v => v.1 = DetectToc)
                         (run fuel w DetectToc k s).1))
    = cursor_seq fuel ws tp c
    /\ ((Z.to_nat (tp - c) + 6 <= fuel)%nat ->
        is_Some (run fuel w DetectToc k s).2).
Proof.
  intros Hws Hchat. induction fuel as [|fuel IH]; intros k s c Htp Hw Hc Hc0 Hct.
  - simpl. split; [done|lia].
  - rewrite run_unfold by done. simpl.
    destruct (Hchat k (range c (Z.min (c + ws) tp)))
      as (found & conf & reason & Hans).
    destruct (node_detect_toc_window_result (chat_detect w k) s tp
                found conf reason Htp) as (Htp' & Hw' & Hc' & _).
    { rewrite Hc, Hw. simpl. exact Hans. }
    rewrite Hc, Hw in Hc'. simpl in Hc'. rewrite Hw in Hw'.
    set (s' := node_detect_toc_window (chat_detect w k) s) in *.
    rewrite Hc'. simpl.
    destruct (cond_after_detect_cursor s' tp _ Htp' Hc') as [Hcont Hstop].
    destruct (Z.ltb_spec (Z.min (c + ws) tp) tp) as [Hlt|Hge].
    + rewrite (Hcont Hlt).
      destruct (IH (S k) s' (Z.min (c + ws) tp)) as [IH1 IH2];
        [done|done|done|lia|lia|].
      split; [by rewrite IH1|]. intros Hfuel. apply IH2. lia.
    + specialize (Hstop Hge).
      assert (Ha : after_detect
                (match cond_after_detect s' with
                 | Continue => DetectToc
                 | Next => ExtractSpans
                 | NoToc => Fail
                 end)).
      { unfold after_detect. by destruct (cond_after_detect s'). }
      rewrite (run_no_detect_after _ _ _ _ _ Ha).
      split; [done|]. intros Hfuel.
      apply run_after_detect; [done|].
      destruct (cond_after_detect s'); simpl; lia.
Qed.

End detect_loop_facts.

(** ** The claims on the page-window scanner *)

(** Closes a goal about a field of a state built with the state helpers. *)
Ltac state_solve := autorewrite with state; try done; simpl in *; done.

Section scanner_claims.
Import Py State Config Clients Nodes Graph LoopNotions Samples Worlds.

(** C1, as the code has it. From cursor 0, with a page count of at least 0,
    a window size of at least 1 and detection calls that all return a
    result, the run makes at least one detection call and ends; each call
    moves the cursor to [min(cursor + window_size, total_pages)]; the
    sequence of cursors never decreases, and it is strictly increasing when
    [total_pages >= 1]; the windows between successive cursors, put end to
    end, are the pages [0 .. total_pages - 1], each once and in order; the
    last cursor is [total_pages]. *)
Theorem C1_detect_cursor_sequence {unicode : Unicode} {settings : Settings}
    (w : World) (s : ParserState) (tp ws : Z) (fuel : nat) :
  0 <= tp -> 1 <= ws ->
  total_pages s = Some tp -> window_size s = Some ws ->
  window_start s = Some 0 ->
  (forall k pages, exists found conf reason,
      chat_detect w k pages = DetectResult found conf reason) ->
  (Z.to_nat tp + 6 <= fuel)%nat ->
  exists visits final,
    run fuel w DetectToc 0 s = (visits, Some final)
    /\ let cs := cursors s visits in
       (2 <= length cs)%nat
       /\ (forall i c, cs !! i = Some c -> (S i < length cs)%nat ->
             cs !! S i = Some (Z.min (c + ws) tp))
       /\ StronglySorted Z.le cs
       /\ (1 <= tp -> StronglySorted Z.lt cs)
       /\ concat (windows cs) = range 0 tp
       /\ last cs = Some tp.
Proof.
  intros Htp0 Hws Htp Hw Hc Hchat Hfuel.
  destruct (run_detect_loop w tp ws Hws Hchat fuel 0%nat s 0 Htp Hw Hc)
    as [Hcs Hend]; [lia|lia|].
  destruct Hend as [final Hfinal]; [lia|].
  exists (run fuel w DetectToc 0 s).1, final.
  split; [by rewrite <- Hfinal; destruct (run fuel w DetectToc 0 s)|].
  unfold cursors. rewrite map_cons, Hcs, Hc. simpl default.
  destruct (cursor_seq_cover ws tp Hws fuel 0) as (Hlast & Hcover & Hlen);
    [lia|lia|lia|].
  destruct (cursor_seq_sorted ws tp Hws fuel 0) as [Hle Hlt]; [lia|].
  split; [done|].
  split; [intros i c; by apply cursor_seq_step|].
  split; [by apply Sorted_StronglySorted; [apply _|]|].
  split; [|done].
  intros Hpos. apply Sorted_StronglySorted; [apply _|]. apply Hlt. lia.
Qed.

Lemma C1_detect_cursor_sequence_witness :
  (0 <= 12 /\ 1 <= 5)
  /\ exists visits final,
       run (unicode := lower_ascii) (settings := default_settings) 18
           (world_ok 12 (fun _ => [])) DetectToc 0 (state_at_detect 12 5)
       = (visits, Some final)
       /\ concat (windows (cursors (state_at_detect 12 5) visits))
          = range 0 12
       /\ last (cursors (state_at_detect 12 5) visits) = Some 12.
Proof.
  split; [lia|].
  destruct (C1_detect_cursor_sequence (unicode := lower_ascii)
              (settings := default_settings) (world_ok 12 (fun _ => []))
              (state_at_detect 12 5) 12 5 18)
    as (visits & final & Hrun & _ & _ & _ & _ & Hcover & Hlast);
    [lia|lia|reflexivity|reflexivity|reflexivity
    |intros k pages; by eexists _, _, _|simpl; lia|].
  exists visits, final. split; [exact Hrun|]. split; [exact Hcover|exact Hlast].
Defined.

(** C1 as stated fails for an empty document: with [total_pages = 0] the
    single detection call leaves the cursor at 0, so the sequence of cursors
    is 0, 0, which is not strictly increasing. *)
Lemma C1_counterexample :
  let s := state_at_detect 0 1 in
  let cs := cursors s
              (run (unicode := lower_ascii) (settings := default_settings) 10
                   (world_ok 0 (fun _ => [])) DetectToc 0 s).1 in
  total_pages s = Some 0 /\ window_size s = Some 1
  /\ window_start s = Some 0
  /\ cs = [0; 0] /\ ~ Sorted Z.lt cs.
Proof.
  vm_compute. repeat split; try reflexivity.
  intros Hs. inversion Hs as [|? ? _ Hhd]. inversion Hhd as [|? ? Hlt].
  discriminate Hlt.
Qed.

(** Only the detection node writes the list of detected pages. *)
Lemma run_node_toc_pages {unicode : Unicode} {settings : Settings} w n k s :
  n <> DetectToc -> toc_pages (run_node w n k s) = toc_pages s.
Proof.
  intros Hn. destruct n; try done; simpl;
    unfold node_doc_info, node_extract_spans, node_llm_parse_toc,
      node_calc_page_end, node_extract_ranges, node_write_csv, node_fail;
    repeat case_match; state_solve.
Qed.

(** Detections that overlap: the windows of a 12-page document report the
    pages 3, 1, 3, then 1, 7, then nothing. *)
Example detect_overlapping_pages :
  map (fun v => default [] (toc_pages v.2))
      (filter (fun v => v.1 = DetectToc)
         (run_parsing_flow (unicode := lower_ascii)
            (settings := default_settings) 20
            (world_ok 12 (fun k => match k with
                                   | O => [3; 1; 3]
                                   | S O => [1; 7]
                                   | _ => []
                                   end))
            (u"doc") 5).1)
  = [[1; 3]; [1; 3; 7]; [1; 3; 7]].
Proof. vm_compute. reflexivity. Qed.

(** C8. In every run, whatever the services answer, the list of detected
    pages in the state is strictly ascending (sorted, without duplicates)
    after every visit of a node, hence after every detection call. *)
Theorem C8_toc_pages_sorted {unicode : Unicode} {settings : Settings}
    (fuel : nat) (w : World) (doc : pystr) (ws : Z) :
  Forall (fun v => StronglySorted Z.lt (default [] (toc_pages v.2)))
         (run_parsing_flow fuel w doc ws).1.
Proof.
  unfold run_parsing_flow.
  apply (run_invariant
           (fun s => StronglySorted Z.lt (default [] (toc_pages s))) w).
  - intros n k s Hs. destruct (decide (n = DetectToc)) as [->|Hn].
    + simpl.
      destruct (node_detect_toc_window_toc_pages (chat_detect w k) s)
        as [->|[found ->]]; [done|apply sorted_set_StronglySorted].
    + by rewrite run_node_toc_pages.
  - simpl. constructor.
Qed.

End scanner_claims.

(** ** The routes to the failed state *)

Section failure_facts.
Import Py State Config Clients Nodes Graph LoopNotions Samples Worlds.
Context {unicode : Unicode} {settings : Settings}.

Lemma node_fail_spec s :
  node_fail s
  = set_logs (logs s ++ [u"[failed] 파이프라인 실패: "
                         ++ default (u"알 수 없는 오류") (error s)])
             (set_job_status FAILED s).
Proof. reflexivity. Qed.

(** From the fail node the run ends after one visit. *)
Lemma run_fail fuel w k s :
  run (S fuel) w Fail k s = ([(Fail, node_fail s)], Some (node_fail s)).
Proof. rewrite run_unfold by done. simpl. by rewrite run_end. Qed.

Lemma node_detect_toc_window_searching chat s tp ws c conf reason :
  searching tp ws c s ->
  chat (range c (Z.min (c + ws) tp)) = DetectResult [] (inl conf) reason ->
  searching tp ws (Z.min (c + ws) tp) (node_detect_toc_window chat s).
Proof.
  intros (Htp & Hw & Hc & Htoc & Herr & Hst) Hchat.
  unfold node_detect_toc_window. rewrite Htp, Hw, Hc, Htoc. simpl.
  rewrite Hchat. rewrite sorted_set_nil.
  unfold searching. autorewrite with state. simpl. done.
Qed.

Lemma run_detect_no_toc w tp ws :
  1 <= ws ->
  (forall k pages, exists conf reason,
      chat_detect w k pages = DetectResult [] (inl conf) reason) ->
  forall fuel k s c,
    searching tp ws c s -> 0 <= c -> c <= tp ->
    (Z.to_nat (tp - c) + 2 <= fuel)%nat ->
    exists visits final,
      run fuel w DetectToc k s = (visits, Some final)
      /\ last (map fst visits) = Some Fail
      /\ job_status final = FAILED
      /\ error final = None
      /\ last (logs final) = Some (u"[failed] 파이프라인 실패: 알 수 없는 오류")
      /\ Forall (fun v => job_status v.2 <> COMPLETED) visits.
Proof.
  intros Hws Hchat. induction fuel as [|fuel IH]; intros k s c Hs Hc0 Hct Hfuel;
    [lia|].
  rewrite run_unfold by done. simpl.
  destruct (Hchat k (range c (Z.min (c + ws) tp))) as (conf & reason & Hans).
  pose proof (node_detect_toc_window_searching _ s tp ws c conf reason Hs Hans)
    as Hs'.
  set (s' := node_detect_toc_window (chat_detect w k) s) in *.
  destruct Hs' as (Htp' & Hw' & Hc' & Htoc' & Herr' & Hst').
  destruct (cond_after_detect_cursor s' tp _ Htp' Hc') as [Hcont Hstop].
  destruct (Z.ltb_spec (Z.min (c + ws) tp) tp) as [Hlt|Hge].
  - rewrite (Hcont Hlt).
    destruct (IH (S k) s' (Z.min (c + ws) tp)) as (visits & final & Hrun & Hlast & H1 & H2 & H3 & H4);
      [done|lia|lia|lia|].
    rewrite Hrun. simpl. exists ((DetectToc, s') :: visits), final.
    split; [done|]. split.
    { change (last (DetectToc :: map fst visits) = Some Fail).
      rewrite last_cons. by rewrite Hlast. }
    repeat split; try done. constructor; [|done]. simpl. by rewrite Hst'.
  - assert (Hno : cond_after_detect s' = NoToc).
    { unfold cond_after_detect. rewrite Htp', Hc', Htoc'. simpl.
      destruct (Z.ltb_spec (Z.min (c + ws) tp) tp); [lia|done]. }
    rewrite Hno. destruct fuel as [|fuel]; [lia|].
    rewrite run_fail. simpl.
    exists [(DetectToc, s'); (Fail, node_fail s')], (node_fail s').
    split; [done|]. split; [done|].
    rewrite node_fail_spec. simpl. rewrite Herr'. simpl.
    split; [done|]. split; [done|]. split; [by rewrite last_snoc|].
    repeat constructor; simpl; by rewrite ?Hst'.
Qed.

End failure_facts.

(** ** The claims on the failed state *)

Section failure_claims.
Import Py State Config Clients Nodes Graph LoopNotions Samples Worlds.

(** C5, on the code. When the document has pages and every detection call
    returns a valid answer with no page, the run ends in the fail node with
    the status failed, and no visit has the status completed.  But nothing
    records a reason: the error message of the final state is missing, and
    the log entry of the fail node says "unknown error". *)
Theorem C5_no_toc_run_records_no_reason {unicode : Unicode} {settings : Settings}
    (w : World) (doc : pystr) (tp ws : Z) (fuel : nat) :
  1 <= tp -> 1 <= ws ->
  pdf_get_info w = McpResult (Some tp) ->
  (forall k pages, exists conf reason,
      chat_detect w k pages = DetectResult [] (inl conf) reason) ->
  (Z.to_nat tp + 3 <= fuel)%nat ->
  exists visits final,
    run_parsing_flow fuel w doc ws = (visits, Some final)
    /\ last (map fst visits) = Some Fail
    /\ job_status final = FAILED
    /\ error final = None
    /\ last (logs final) = Some (u"[failed] 파이프라인 실패: 알 수 없는 오류")
    /\ Forall (fun v => job_status v.2 <> COMPLETED) visits.
Proof.
  intros Htp Hws Hinfo Hchat Hfuel. unfold run_parsing_flow.
  destruct fuel as [|fuel]; [lia|].
  rewrite run_unfold by done. simpl.
  set (s1 := node_doc_info (pdf_get_info w) (create_initial_state doc ws)).
  assert (Hs1 : searching tp ws 0 s1).
  { subst s1. unfold node_doc_info. rewrite Hinfo. simpl.
    destruct (Z.leb_spec tp 0); [lia|].
    unfold searching. autorewrite with state. simpl. done. }
  destruct (run_detect_no_toc w tp ws Hws Hchat fuel 0%nat s1 0 Hs1)
    as (visits & final & Hrun & Hlast & H1 & H2 & H3 & H4); [lia|lia|lia|].
  rewrite Hrun. simpl.
  exists ((DocInfo, s1) :: visits), final.
  split; [done|]. split.
  { change (last (DocInfo :: map fst visits) = Some Fail).
    rewrite last_cons. by rewrite Hlast. }
  repeat split; try done. constructor; [|done].
  destruct Hs1 as (_ & _ & _ & _ & _ & Hst). simpl. by rewrite Hst.
Qed.

Lemma C5_no_toc_run_records_no_reason_witness :
  (1 <= 12 /\ 1 <= 5)
  /\ exists visits final,
       run_parsing_flow (unicode := lower_ascii) (settings := default_settings) 15
         (world_ok 12 (fun _ => [])) (u"doc") 5 = (visits, Some final)
       /\ job_status final = FAILED
       /\ error final = None.
Proof.
  split; [lia|].
  destruct (C5_no_toc_run_records_no_reason (unicode := lower_ascii)
              (settings := default_settings) (world_ok 12 (fun _ => []))
              (u"doc") 12 5 15)
    as (visits & final & Hrun & _ & Hst & Herr & _);
    [lia|lia|reflexivity|intros k pages; by eexists _, _|simpl; lia|].
  exists visits, final. split; [exact Hrun|]. split; [exact Hst|exact Herr].
Defined.

(** A visit of the outline parser or of the writer that leaves the status
    failed has recorded an error and changed nothing else that the graph
    reads. *)
Lemma node_llm_parse_toc_failed {unicode : Unicode} {settings : Settings} chat s :
  job_status (node_llm_parse_toc chat s) = FAILED ->
  exists msg, node_llm_parse_toc chat s = set_error s msg.
Proof.
  unfold node_llm_parse_toc. repeat case_match; eauto.
  autorewrite with state. done.
Qed.

Lemma node_write_csv_failed {unicode : Unicode} {settings : Settings} write s :
  job_status (node_write_csv write s) = FAILED ->
  exists msg, node_write_csv write s = set_error s msg.
Proof.
  unfold node_write_csv. repeat case_match; eauto.
  autorewrite with state. done.
Qed.

Lemma run_node_toc_parsed {unicode : Unicode} {settings : Settings} w n k s :
  n = DocInfo \/ n = DetectToc \/ n = ExtractSpans ->
  toc_parsed (run_node w n k s) = toc_parsed s.
Proof.
  intros [->|[->| ->]]; simpl;
    unfold node_doc_info, node_detect_toc_window, node_extract_spans;
    repeat case_match; state_solve.
Qed.

Lemma run_after_llm_failure {unicode : Unicode} {settings : Settings} w fuel :
  forall n k s i s',
    (before_parse n -> toc_parsed s = None) ->
    (run fuel w n k s).1 !! i = Some (LlmToc, s') ->
    job_status s' = FAILED ->
    (i + 2 <= fuel)%nat ->
    drop (S i) (run fuel w n k s).1 = [(Fail, node_fail s')]
    /\ (run fuel w n k s).2 = Some (node_fail s')
    /\ is_Some (error s').
Proof.
  induction fuel as [|fuel IH]; intros n k s i s' Hinv Hi Hst Hfuel; [lia|].
  destruct (decide (n = End_)) as [->|Hne]; [by rewrite run_end in Hi|].
  rewrite run_unfold in * by done. cbv zeta in *. simpl fst in *.
  simpl snd in *.
  destruct i as [|i].
  - simpl in Hi. injection Hi as Hn Hs'. subst n. simpl in Hs'.
    destruct (node_llm_parse_toc_failed (chat_parse w) s) as [msg Hmsg];
      [by rewrite Hs'|].
    rewrite Hmsg in Hs'. subst s'.
    assert (Hnext : next_node LlmToc (set_error s msg) = Fail).
    { simpl. unfold cond_after_parse.
      rewrite set_error_toc_parsed, Hinv; [done|]. unfold before_parse. auto. }
    simpl run_node. rewrite Hmsg, Hnext.
    destruct fuel as [|fuel]; [lia|]. rewrite run_fail. simpl.
    rewrite ?drop_0. eauto.
  - simpl in Hi. rewrite skipn_cons.
    apply (IH _ _ _ i s'); [|done|done|lia].
    intros Hb.
    assert (Hn : n = DocInfo \/ n = DetectToc \/ n = ExtractSpans).
    { unfold before_parse in Hb.
      destruct n; simpl in Hb; auto; try (by destruct Hb as [?|[?|[?|?]]]).
      destruct (cond_after_parse _); by destruct Hb as [?|[?|[?|?]]]. }
    rewrite run_node_toc_parsed by done. apply Hinv.
    unfold before_parse. tauto.
Qed.

Lemma run_after_write_csv {unicode : Unicode} {settings : Settings} w fuel :
  forall n k s i s',
    (run fuel w n k s).1 !! i = Some (WriteCsv, s') ->
    drop (S i) (run fuel w n k s).1 = [] /\ (run fuel w n k s).2 = Some s'
    /\ (job_status s' = FAILED -> is_Some (error s')).
Proof.
  induction fuel as [|fuel IH]; intros n k s i s' Hi.
  { by destruct n. }
  destruct (decide (n = End_)) as [->|Hne]; [by rewrite run_end in Hi|].
  rewrite run_unfold in * by done. cbv zeta in *. simpl fst in *.
  simpl snd in *.
  destruct i as [|i].
  - simpl in Hi. injection Hi as Hn Hs'. subst n. simpl in Hs'. simpl run_node.
    rewrite Hs'. simpl next_node. rewrite run_end.
    split; [done|]. split; [done|]. intros Hst.
    destruct (node_write_csv_failed (write_files w) s) as [msg Hmsg];
      [by rewrite Hs'|].
    rewrite Hmsg in Hs'. subst s'. by eexists.
  - simpl in Hi. rewrite skipn_cons. by apply (IH _ _ _ i s').
Qed.




End failure_claims.

(** ** The files of the sections *)

Section write_csv_facts.
Import Py State Config Nodes.

(** The files of a section are named after its section id, 0 when the
    record has none: two records without an id get the same files. *)
Lemma section_paths_without_id {settings : Settings} doc sec sec' :
  sec_section_id sec = None -> sec_section_id sec' = None ->
  section_paths doc sec = section_paths doc sec'.
Proof. intros H1 H2. unfold section_paths. by rewrite H1, H2. Qed.

End write_csv_facts.

(** ** The section extractor *)

Section extract_ranges_claims.
Import Py State Config Clients Nodes Graph Notions Samples Worlds.

(** The message of an [MCPClientError] is never empty. *)
Lemma mcp_call_error_nonempty {A} (o : McpOutcome A) e :
  mcp_call o = inl e -> e <> [].
Proof.
  destruct o as [x|x|r]; simpl; intros [= <-]; vm_compute; discriminate.
Qed.

Lemma extract_section_ok {unicode : Unicode} read i item content :
  mcp_call (read (entry_pages item)) = inr content ->
  let sec := extract_section read i item in
  sec_item sec = item
  /\ sec_section_id sec = Some i
  /\ sec_error sec = None
  /\ sec_pages sec = Some (entry_pages item)
  /\ sec_title sec = entry_title item i
  /\ sec_text sec
     = extract_content_after_title (default [] content) (entry_title item i).
Proof.
  intros Hread. unfold extract_section.
  change (if start_of item <=? default (start_of item) (page_end item)
          then range (start_of item)
                 (default (start_of item) (page_end item) + 1)
          else [start_of item]) with (entry_pages item).
  rewrite Hread. done.
Qed.

Lemma extract_section_failed {unicode : Unicode} read i item e :
  mcp_call (read (entry_pages item)) = inl e ->
  let sec := extract_section read i item in
  sec_item sec = item
  /\ sec_text sec = []
  /\ sec_title sec = u"섹션 " ++ str_int i ++ u" (추출 실패)"
  /\ sec_error sec = Some e
  /\ e <> []
  /\ sec_section_id sec = None.
Proof.
  intros Hread. unfold extract_section.
  change (if start_of item <=? default (start_of item) (page_end item)
          then range (start_of item)
                 (default (start_of item) (page_end item) + 1)
          else [start_of item]) with (entry_pages item).
  rewrite Hread. repeat split; try done.
  by eapply mcp_call_error_nonempty.
Qed.

(** C4, on the code.  For a non-empty outline the section extractor does
    not fail: it stores one record per entry, in the order of the outline,
    and sets the status to extracted.  The record of an entry whose pages
    were read has the ordinal of the entry (from 1) as its section id.  The
    record of an entry whose read failed keeps the entry, has an empty text,
    the fallback title and the non-empty message of the error; but it has no
    section id at all. *)
Theorem C4_extract_ranges_records {unicode : Unicode}
    (read : nat -> list Z -> McpOutcome (option pystr)) (s : ParserState) :
  parsed_items_of s <> [] ->
  let items := parsed_items_of s in
  let s' := node_extract_ranges read s in
  exists secs,
    sections s' = Some secs
    /\ job_status s' = EXTRACTED
    /\ error s' = error s
    /\ length secs = length items
    /\ forall k item, items !! k = Some item ->
         exists sec,
           secs !! k = Some sec
           /\ sec_item sec = item
           /\ match mcp_call (read (S k) (entry_pages item)) with
              | inr _ =>
                sec_error sec = None
                /\ sec_section_id sec = Some (Z.of_nat (S k))
              | inl e =>
                sec_error sec = Some e /\ e <> []
                /\ sec_text sec = []
                /\ sec_title sec
                   = u"섹션 " ++ str_int (Z.of_nat (S k)) ++ u" (추출 실패)"
                /\ sec_section_id sec = None
              end.
Proof.
  intros Hne items s'. subst s'. unfold node_extract_ranges.
  fold items. destruct items as [|x items'] eqn:Hitems; [done|].
  rewrite <- Hitems.
  eexists. autorewrite with state. simpl sections.
  split; [done|]. split; [done|]. split; [done|].
  split; [by rewrite length_imap|].
  intros k item Hk. rewrite list_lookup_imap, Hk. simpl.
  eexists. split; [done|].
  destruct (mcp_call (read (S k) (entry_pages item))) as [e|content] eqn:Hr.
  - destruct (extract_section_failed (read (S k)) (Z.of_nat (S k)) item e Hr)
      as (H1 & H2 & H3 & H4 & H5 & H6). done.
  - destruct (extract_section_ok (read (S k)) (Z.of_nat (S k)) item content Hr)
      as (H1 & H2 & H3 & _). done.
Qed.

Lemma C4_extract_ranges_records_witness :
  let s := set_toc_parsed
             {| tp_status := Some 200; tp_message := None;
                tp_parsed := Some (calc_page_end [entry_at 1; entry_at 3] 10) |}
             (state_at_detect 10 5) in
  parsed_items_of s <> []
  /\ exists secs,
       sections (node_extract_ranges (unicode := lower_ascii)
                   (pdf_read (world_read_fails 1 [])) s) = Some secs
       /\ map sec_section_id secs = [None; Some 2].
Proof.
  intros s. split; [done|].
  destruct (C4_extract_ranges_records (unicode := lower_ascii)
              (pdf_read (world_read_fails 1 [])) s)
    as (secs & Hsecs & _ & _ & Hlen & Hall); [done|].
  exists secs. split; [exact Hsecs|].
  destruct (Hall 0%nat (set_page_end 2 (entry_at 1)) eq_refl)
    as (sec0 & Hk0 & _ & H0).
  destruct (Hall 1%nat (set_page_end 9 (entry_at 3)) eq_refl)
    as (sec1 & Hk1 & _ & H1).
  simpl in H0, H1. destruct H0 as (_ & _ & _ & _ & H0). destruct H1 as [_ H1].
  destruct secs as [|a [|b [|c secs]]]; try discriminate Hlen.
  simpl in Hk0, Hk1. injection Hk0 as ->. injection Hk1 as ->.
  simpl. by rewrite H0, H1.
Defined.

End extract_ranges_claims.

(** ** Searching a string *)

Section find_facts.
Import Py StrNotions.
#[local] Open Scope nat_scope.

Lemma startswith_spec (s p : pystr) :
  startswith s p = true <-> exists post, s = p ++ post.
Proof.
  revert s. induction p as [|c p IH]; intros s; simpl.
  - split; [intros _; by exists s|done].
  - destruct s as [|d s]; [split; [done|by intros [? ?]]|].
    rewrite andb_true_iff, N.eqb_eq, IH. split.
    + intros [-> [post ->]]. eauto.
    + intros [post [= -> ->]]. eauto.
Qed.

Lemma occurs_at_0 (sub s : pystr) :
  occurs_at sub s 0 <-> startswith s sub = true.
Proof. unfold occurs_at. rewrite startswith_spec, drop_0. done. Qed.

Lemma occurs_at_S (sub s : pystr) c p :
  occurs_at sub (c :: s) (S p) <-> occurs_at sub s p.
Proof. done. Qed.

Lemma find_Some (s sub : pystr) pos :
  find s sub = Some pos -> first_occurrence sub s pos.
Proof.
  revert pos. induction s as [|c s IH]; intros pos; simpl.
  - destruct (startswith [] sub) eqn:Hs; [|done].
    intros [= <-]. split; [by apply occurs_at_0|]. intros; lia.
  - destruct (startswith (c :: s) sub) eqn:Hs.
    + intros [= <-]. split; [by apply occurs_at_0|]. intros; lia.
    + destruct (find s sub) as [q|] eqn:Hq; [|done].
      simpl. intros [= <-]. destruct (IH q eq_refl) as [Hocc Hfirst].
      split; [by apply occurs_at_S|].
      intros [|p] Hp.
      * rewrite occurs_at_0. by rewrite Hs.
      * rewrite occurs_at_S. apply Hfirst. lia.
Qed.

Lemma find_None (s sub : pystr) :
  find s sub = None -> forall p, ~ occurs_at sub s p.
Proof.
  induction s as [|c s IH]; simpl.
  - destruct (startswith [] sub) eqn:Hs; [done|]. intros _ p [post Hp].
    rewrite drop_nil in Hp. destruct sub; [done|done].
  - destruct (startswith (c :: s) sub) eqn:Hs; [done|].
    destruct (find s sub) as [q|] eqn:Hq; [done|]. intros _ [|p].
    + rewrite occurs_at_0. by rewrite Hs.
    + rewrite occurs_at_S. by apply IH.
Qed.

Lemma occurs_occurs_at (sub s : pystr) :
  occurs sub s <-> exists p, occurs_at sub s p.
Proof.
  split.
  - intros (pre & post & ->). exists (length pre), post.
    by rewrite drop_app_length.
  - intros (p & post & Hp). exists (take p s), post.
    by rewrite <- Hp, take_drop.
Qed.

Lemma first_occurrence_unique (sub s : pystr) p q :
  first_occurrence sub s p -> first_occurrence sub s q -> p = q.
Proof.
  intros [Hp Hp'] [Hq Hq'].
  destruct (Nat.lt_trichotomy p q) as [Hlt|[->|Hlt]]; [|done|].
  - by destruct (Hq' p Hlt).
  - by destruct (Hp' q Hlt).
Qed.

(** [find] returns the first occurrence when there is one, and [None]
    otherwise. *)
Lemma find_first_occurrence (s sub : pystr) pos :
  first_occurrence sub s pos -> find s sub = Some pos.
Proof.
  intros Hpos. destruct (find s sub) as [q|] eqn:Hq.
  - f_equal. eapply first_occurrence_unique; [|done]. by apply find_Some.
  - destruct Hpos as [Hocc _]. by destruct (find_None s sub Hq pos).
Qed.

Lemma find_not_occurs (s sub : pystr) :
  ~ occurs sub s -> find s sub = None.
Proof.
  intros Hno. destruct (find s sub) as [q|] eqn:Hq; [|done].
  destruct Hno. apply occurs_occurs_at. exists q. by apply find_Some.
Qed.

End find_facts.

(** ** The longest match of [difflib] *)

Section difflib_facts.
Import Py Difflib StrNotions.
#[local] Open Scope nat_scope.

(** *** The index [b2j] *)

Lemma chain_b_index_from (b : pystr) :
  forall off (m : gmap N (list nat)) c,
    default [] (foldl (fun (b2j : gmap N (list nat)) '(i, elt) =>
                         <[elt := default [] (b2j !! elt) ++ [i]]> b2j)
                      m (imap (fun i x => (off + i, x)) b) !! c)
    = default [] (m !! c) ++ positions_from off c b.
Proof.
  induction b as [|x b IH]; intros off m c; simpl.
  - by rewrite app_nil_r.
  - rewrite (imap_ext _ (fun i x => (S off + i, x))) by (intros; simpl; f_equal; lia).
    rewrite IH. rewrite Nat.add_0_r.
    destruct (N.eqb_spec x c) as [->|Hne].
    + rewrite lookup_insert_eq. simpl. by rewrite <- app_assoc.
    + by rewrite lookup_insert_ne.
Qed.

Lemma chain_b_lookup (b : pystr) c :
  length b < 200 -> default [] (chain_b b !! c) = positions_from 0 c b.
Proof.
  intros Hlen. unfold chain_b.
  destruct (Nat.leb_spec 200 (length b)); [lia|].
  unfold chain_b_index.
  rewrite (imap_ext _ (fun i x => (0 + i, x))) by done.
  by rewrite chain_b_index_from, lookup_empty.
Qed.

(** *** Common suffixes *)

Variables a b : pystr.

Lemma suffix_len_unfold i j :
  suffix_len a b i j
  = match a !! i, b !! j with
    | Some x, Some y =>
      if (x =? y)%N then
        S match i, j with
          | S i', S j' => suffix_len a b i' j'
          | _, _ => 0
          end
      else 0
    | _, _ => 0
    end.
Proof. by destruct i. Qed.

Lemma suffix_len_eq i j x :
  a !! i = Some x -> b !! j = Some x ->
  suffix_len a b i j
  = S match i, j with
      | S i', S j' => suffix_len a b i' j'
      | _, _ => 0
      end.
Proof.
  intros Ha Hb. rewrite suffix_len_unfold, Ha, Hb, N.eqb_refl. done.
Qed.

Lemma suffix_len_0 i j :
  (forall x, a !! i = Some x -> b !! j <> Some x) -> suffix_len a b i j = 0.
Proof.
  intros Hne. rewrite suffix_len_unfold.
  destruct (a !! i) as [x|] eqn:Ha; [|done].
  destruct (b !! j) as [y|] eqn:Hb; [|done].
  destruct (N.eqb_spec x y) as [->|]; [|done].
  by destruct (Hne y).
Qed.

Lemma suffix_len_common i :
  forall j,
    common_block a b (i + 1 - suffix_len a b i j) (j + 1 - suffix_len a b i j)
                 (suffix_len a b i j)
    /\ suffix_len a b i j <= i + 1 /\ suffix_len a b i j <= j + 1.
Proof.
  induction i as [|i IH]; intros j.
  - destruct (a !! 0) as [x|] eqn:Ha.
    + destruct (decide (b !! j = Some x)) as [Hb|Hb].
      * rewrite (suffix_len_eq 0 j x Ha Hb).
        split; [|lia]. intros t Ht. exists x.
        replace (0 + 1 - 1 + t) with 0 by lia.
        replace (j + 1 - 1 + t) with j by lia. done.
      * rewrite suffix_len_0; [|intros y; rewrite Ha; by intros [= <-]].
        split; [|lia]. intros t Ht. lia.
    + rewrite suffix_len_0; [|intros y; by rewrite Ha].
      split; [|lia]. intros t Ht. lia.
  - destruct (a !! S i) as [x|] eqn:Ha.
    + destruct (decide (b !! j = Some x)) as [Hb|Hb].
      * rewrite (suffix_len_eq (S i) j x Ha Hb).
        destruct j as [|j].
        { split; [|lia]. intros t Ht. exists x.
          replace (S i + 1 - 1 + t) with (S i) by lia.
          replace (0 + 1 - 1 + t) with 0 by lia. done. }
        destruct (IH j) as (Hc & Hi & Hj).
        split; [|lia]. intros t Ht.
        destruct (decide (t < suffix_len a b i j)) as [Hlt|Hge].
        { destruct (Hc t Hlt) as (y & Hy1 & Hy2). exists y.
          replace (S i + 1 - S (suffix_len a b i j) + t)
            with (i + 1 - suffix_len a b i j + t) by lia.
          replace (S j + 1 - S (suffix_len a b i j) + t)
            with (j + 1 - suffix_len a b i j + t) by lia. done. }
        exists x.
        replace (S i + 1 - S (suffix_len a b i j) + t) with (S i) by lia.
        replace (S j + 1 - S (suffix_len a b i j) + t) with (S j) by lia.
        done.
      * rewrite suffix_len_0; [|intros y; rewrite Ha; by intros [= <-]].
        split; [|lia]. intros t Ht. lia.
    + rewrite suffix_len_0; [|intros y; by rewrite Ha].
      split; [|lia]. intros t Ht. lia.
Qed.

Lemma common_block_suffix_len k :
  forall i j, common_block a b i j k -> 1 <= k ->
    k <= suffix_len a b (i + k - 1) (j + k - 1).
Proof.
  induction k as [|k IH]; intros i j Hc Hk; [lia|].
  destruct (Hc k) as (x & Ha & Hb); [lia|].
  replace (i + S k - 1) with (i + k) by lia.
  replace (j + S k - 1) with (j + k) by lia.
  rewrite (suffix_len_eq _ _ x Ha Hb).
  destruct k as [|k]; [lia|].
  replace (i + S k) with (S (i + S k - 1)) by lia.
  replace (j + S k) with (S (j + S k - 1)) by lia.
  apply le_n_S. apply IH; [|lia].
  intros t Ht. apply Hc. lia.
Qed.

(** *** The scan *)

Lemma scan_row_cell i j j2len x :
  prev_row a b i j2len -> a !! i = Some x -> b !! j = Some x ->
  j2len_prev j2len j + 1 = suffix_len a b i j.
Proof.
  intros Hprev Ha Hb. rewrite (suffix_len_eq i j x Ha Hb).
  unfold j2len_prev. destruct j as [|j]; [by destruct i|].
  rewrite (Hprev j). destruct i; lia.
Qed.

Lemma best_so_far_next_cell i off best :
  best_so_far a b i off best ->
  suffix_len a b i off <= m_size best ->
  best_so_far a b i (S off) best.
Proof.
  intros (Hc & Hin & Hend & Hall) Hle. split; [done|]. split; [done|]. split.
  - intros Hs. specialize (Hend Hs). unfold cell_before in *. lia.
  - intros i' j' Hbefore.
    destruct (decide (i' = i /\ j' = off)) as [[-> ->]|Hne].
    + split; [done|]. intros _ Hs. specialize (Hend Hs).
      unfold cell_before in *. lia.
    + apply Hall. unfold cell_before in *. lia.
Qed.

Lemma best_so_far_new_best i off best :
  i < length a -> off < length b ->
  best_so_far a b i off best ->
  m_size best < suffix_len a b i off ->
  best_so_far a b i (S off)
    {| m_a := i + 1 - suffix_len a b i off;
       m_b := off + 1 - suffix_len a b i off;
       m_size := suffix_len a b i off |}.
Proof.
  intros Hia Hob (Hc & Hin & Hend & Hall) Hlt.
  destruct (suffix_len_common i off) as (Hcommon & Hi & Hj).
  split; [done|]. simpl. split; [lia|]. split.
  - intros _. unfold cell_before. lia.
  - intros i' j' Hbefore.
    destruct (decide (i' = i /\ j' = off)) as [[-> ->]|Hne].
    + split; [done|]. intros _ _. unfold cell_before. lia.
    + destruct (Hall i' j') as [Hle _]; [unfold cell_before in *; lia|].
      split; [lia|]. intros Heq. lia.
Qed.

Lemma best_so_far_next_row i off best :
  length b <= off ->
  best_so_far a b i off best -> best_so_far a b (S i) 0 best.
Proof.
  intros Hoff (Hc & Hin & Hend & Hall). split; [done|]. split; [done|]. split.
  - intros Hs. specialize (Hend Hs). unfold cell_before in *. lia.
  - intros i' j' Hbefore.
    destruct (decide (i' = i /\ off <= j')) as [[-> Hj]|Hne].
    + rewrite (suffix_len_0 i j').
      * split; [lia|]. intros; lia.
      * intros x _ Hx. apply lookup_lt_Some in Hx. lia.
    + apply Hall. unfold cell_before in *. lia.
Qed.

Lemma scan_row_inv i ai j2len :
  a !! i = Some ai -> prev_row a b i j2len ->
  forall rest off newj2len best,
    drop off b = rest ->
    row_known a b i off newj2len ->
    best_so_far a b i off best ->
    prev_row a b (S i)
      (scan_row j2len i 0 (length b) (positions_from off ai rest)
                newj2len best).1
    /\ best_so_far a b (S i) 0
         (scan_row j2len i 0 (length b) (positions_from off ai rest)
                   newj2len best).2.
Proof.
  intros Ha Hprev.
  induction rest as [|x rest IH]; intros off newj2len best Hdrop Hrow Hbest.
  - simpl. assert (Hlen : length b <= off).
    { apply (f_equal length) in Hdrop. rewrite length_drop in Hdrop.
      simpl in Hdrop. lia. }
    split; [|by eapply best_so_far_next_row].
    intros j. rewrite (Hrow j).
    destruct (Nat.ltb_spec j off); [done|].
    rewrite suffix_len_0; [done|].
    intros y _ Hy. apply lookup_lt_Some in Hy. lia.
  - assert (Hb : b !! off = Some x).
    { pose proof (lookup_drop b off 0) as Hl. rewrite Hdrop in Hl.
      simpl in Hl. by rewrite Nat.add_0_r in Hl. }
    assert (Hdrop' : drop (S off) b = rest).
    { replace (S off) with (off + 1) by lia.
      rewrite <- drop_drop, Hdrop. done. }
    assert (Hoff : off < length b) by (by eapply lookup_lt_Some).
    simpl positions_from. destruct (N.eqb_spec x ai) as [->|Hne].
    + pose proof (scan_row_cell i off j2len ai Hprev Ha Hb) as Hk.
      simpl scan_row.
      destruct (Nat.leb_spec (length b) off) as [|_]; [lia|].
      rewrite Hk. apply IH; [done| |].
      * intros j. destruct (decide (j = off)) as [->|Hj].
        -- rewrite lookup_insert_eq. simpl.
           destruct (Nat.ltb_spec off (S off)); [done|lia].
        -- rewrite lookup_insert_ne by done. rewrite (Hrow j).
           destruct (Nat.ltb_spec j off), (Nat.ltb_spec j (S off));
             try done; lia.
      * destruct (Nat.ltb_spec (m_size best) (suffix_len a b i off)).
        -- apply (best_so_far_new_best i off best); try done.
           by eapply lookup_lt_Some.
        -- by apply best_so_far_next_cell.
    + assert (H0 : suffix_len a b i off = 0).
      { apply suffix_len_0. intros y Hy. rewrite Ha in Hy.
        injection Hy as <-. rewrite Hb. by intros [= ->]. }
      apply IH; [done| |].
      * intros j. rewrite (Hrow j).
        destruct (Nat.ltb_spec j off), (Nat.ltb_spec j (S off));
          try done; try lia.
        replace j with off by lia. by rewrite H0.
      * apply best_so_far_next_cell; [done|lia].
Qed.

Lemma scan_rows_inv (b2j : gmap N (list nat)) :
  (forall c, default [] (b2j !! c) = positions_from 0 c b) ->
  forall n i j2len best,
    i + n = length a ->
    prev_row a b i j2len ->
    best_so_far a b i 0 best ->
    exists best',
      scan_rows a b2j 0 (length b) (seq i n) j2len best = Some best'
      /\ best_so_far a b (length a) 0 best'.
Proof.
  intros Hb2j. induction n as [|n IH]; intros i j2len best Hlen Hprev Hbest.
  - simpl. exists best. split; [done|].
    by replace (length a) with i by lia.
  - simpl. destruct (a !! i) as [ai|] eqn:Ha;
      [|apply lookup_ge_None_1 in Ha; lia].
    simpl. rewrite Hb2j.
    destruct (scan_row_inv i ai j2len Ha Hprev b 0 ∅ best) as [H1 H2];
      [done| |done|].
    { intros j. by rewrite lookup_empty. }
    destruct (scan_row j2len i 0 (length b) (positions_from 0 ai b) ∅ best)
      as [newj2len best'].
    apply IH; [lia|done|done].
Qed.

(** *** The result *)

Lemma best_so_far_longest_first best :
  best_so_far a b (length a) 0 best -> longest_first a b best.
Proof.
  intros (Hc & Hin & Hend & Hall). split; [done|].
  intros i j k Hblock.
  destruct (decide (k = 0)) as [->|Hk]; [split; [lia|intros; lia]|].
  assert (Hcell : cell_before (length a) 0 (i + k - 1) (j + k - 1)).
  { destruct (Hblock (k - 1)) as (x & Hx & _); [lia|].
    apply lookup_lt_Some in Hx. unfold cell_before. lia. }
  pose proof (common_block_suffix_len k i j Hblock) as Hsuf.
  destruct (Hall _ _ Hcell) as [Hle Htie].
  split; [lia|]. intros -> Hpos.
  assert (Hnot : ~ cell_before (m_a best + m_size best - 1)
                   (m_b best + m_size best - 1)
                   (i + m_size best - 1) (j + m_size best - 1)).
  { apply Htie; lia. }
  unfold cell_before in Hnot. lia.
Qed.

Lemma extend_left_maximal besti bestj bestsize :
  besti <= length a -> bestj <= length b ->
  common_block a b besti bestj bestsize ->
  (forall i j k, common_block a b i j k -> k <= bestsize) ->
  extend_left a b 0 0 besti bestj bestsize
  = Some {| m_a := besti; m_b := bestj; m_size := bestsize |}.
Proof.
  intros Hia Hjb Hc Hmax. destruct besti as [|i]; [done|]. simpl.
  destruct (Nat.ltb_spec 0 bestj) as [Hj|Hj]; [|done]. simpl.
  destruct (b !! (bestj - 1)) as [y|] eqn:Hb;
    [|apply lookup_ge_None_1 in Hb; lia]. simpl.
  destruct (a !! i) as [x|] eqn:Ha;
    [|apply lookup_ge_None_1 in Ha; lia]. simpl.
  destruct (N.eqb_spec x y) as [->|Hne]; [|done].
  assert (Hbig : common_block a b i (bestj - 1) (S bestsize)).
  { intros t Ht. destruct t as [|t].
    - exists y. by rewrite !Nat.add_0_r.
    - destruct (Hc t) as (z & Hz1 & Hz2); [lia|]. exists z.
      replace (i + S t) with (S i + t) by lia.
      replace (bestj - 1 + S t) with (bestj + t) by lia. done. }
  apply Hmax in Hbig. lia.
Qed.

Lemma extend_right_maximal fuel besti bestj bestsize :
  common_block a b besti bestj bestsize ->
  (forall i j k, common_block a b i j k -> k <= bestsize) ->
  extend_right a b (length a) (length b) fuel besti bestj bestsize
  = Some {| m_a := besti; m_b := bestj; m_size := bestsize |}.
Proof.
  intros Hc Hmax. destruct fuel as [|fuel]; [done|]. simpl.
  destruct (Nat.ltb_spec (besti + bestsize) (length a)) as [Hia|]; [|done].
  destruct (Nat.ltb_spec (bestj + bestsize) (length b)) as [Hjb|]; [|done].
  simpl.
  destruct (b !! (bestj + bestsize)) as [y|] eqn:Hb;
    [|apply lookup_ge_None_1 in Hb; lia]. simpl.
  destruct (a !! (besti + bestsize)) as [x|] eqn:Ha;
    [|apply lookup_ge_None_1 in Ha; lia]. simpl.
  destruct (N.eqb_spec x y) as [->|Hne]; [|done].
  assert (Hbig : common_block a b besti bestj (S bestsize)).
  { intros t Ht. destruct (decide (t = bestsize)) as [->|Hlt].
    - by exists y.
    - apply Hc. lia. }
  apply Hmax in Hbig. lia.
Qed.

(** When [b] has fewer than 200 elements, [find_longest_match] over the
    whole of [a] and [b] returns a longest common block, the first one in
    [a] and then in [b]. *)
Lemma find_longest_match_longest_first :
  length b < 200 ->
  exists m,
    find_longest_match a b 0 (length a) 0 (length b) = Some m
    /\ longest_first a b m.
Proof.
  intros Hlen. unfold find_longest_match. rewrite Nat.sub_0_r.
  destruct (scan_rows_inv (chain_b b) (fun c => chain_b_lookup b c Hlen)
              (length a) 0 ∅ {| m_a := 0; m_b := 0; m_size := 0 |})
    as (m0 & Hscan & Hbest); [done| | |].
  { intros j. by rewrite lookup_empty. }
  { split; [intros t Ht; simpl in Ht; lia|]. simpl. split; [lia|].
    split; [lia|].
    intros i' j' Hcell. unfold cell_before in Hcell. lia. }
  rewrite Hscan. simpl.
  pose proof (best_so_far_longest_first m0 Hbest) as Hm0.
  destruct Hm0 as [Hc Hmax]. destruct Hbest as (_ & [Hia Hjb] & _).
  assert (Hmax' : forall i j k, common_block a b i j k -> k <= m_size m0).
  { intros i j k Hk. by destruct (Hmax i j k Hk). }
  rewrite extend_left_maximal; [|done|done|done|done].
  simpl.
  rewrite extend_right_maximal; [|done|done].
  exists m0. split; [by destruct m0|]. by split.
Qed.

Lemma longest_first_unique m m' :
  longest_first a b m -> longest_first a b m' ->
  m_size m = m_size m' /\ (1 <= m_size m -> m = m').
Proof.
  intros [Hc Hmax] [Hc' Hmax'].
  destruct (Hmax _ _ _ Hc') as [Hle Htie].
  destruct (Hmax' _ _ _ Hc) as [Hle' Htie'].
  assert (Heq : m_size m = m_size m') by lia.
  split; [done|]. intros Hpos.
  specialize (Htie (eq_sym Heq)). specialize (Htie' Heq).
  destruct m as [i j k], m' as [i' j' k']. simpl in *. subst k'.
  assert (i = i' /\ j = j') as [-> ->] by lia. done.
Qed.

End difflib_facts.

(** ** The claims on body extraction *)

Section extract_claims.
Import Py Difflib State Nodes StrNotions Samples.
#[local] Open Scope nat_scope.

(** The test of the code, [size > max(3, int(len(title) * 0.8))], holds
    exactly when the size exceeds both 3 and 0.8 times the length. *)
Lemma title_threshold_spec (title : pystr) (size : nat) :
  title_threshold title < size
  <-> 3 < size /\ 4 * length title < 5 * size.
Proof.
  unfold title_threshold.
  pose proof (Nat.div_mod_eq (4 * length title) 5) as Hdiv.
  pose proof (Nat.mod_upper_bound (4 * length title) 5) as Hmod.
  lia.
Qed.

Lemma common_block_empty (a : pystr) i j k :
  common_block a [] i j k -> k = 0.
Proof.
  intros Hc. destruct k as [|k]; [done|].
  destruct (Hc 0) as (x & _ & Hx); [lia|]. done.
Qed.

(** C10. When the title or the content is the empty string, body extraction
    returns the content as it is, not trimmed. *)
Theorem C10_extract_identity_on_empty {unicode : Unicode} (content title : pystr) :
  title = [] \/ content = [] ->
  extract_content_after_title content title = content.
Proof.
  intros [-> | ->]; unfold extract_content_after_title; [done|].
  by destruct title.
Qed.

Lemma C10_extract_identity_on_empty_witness :
  ([] = @nil N \/ u"  body  " = [])
  /\ extract_content_after_title (unicode := lower_ascii) (u"  body  ") []
     = u"  body  ".
Proof.
  split; [by left|].
  apply (C10_extract_identity_on_empty (unicode := lower_ascii)). by left.
Defined.




End extract_claims.
